(** * Celestia: the deterministic chart engine (services/astrology and the
    ZodiacWheel layout resolver), shallowly embedded.

    JavaScript numbers are modelled as exact rationals [Q]: every finite
    double is a rational, and the properties below are about the arithmetic
    the code writes, not about rounding.  Integer-valued results
    ([Math.round], [Math.floor], counters, indices) are modelled as [Z]. *)

From Stdlib Require Import QArith Qround Qabs Lqa ZArith Lia List String Bool.
From Stdlib Require Import Sorted Permutation Qminmax.
Import ListNotations.
Open Scope Q_scope.

(** ** JavaScript number primitives *)

Definition Qltb (x y : Q) : bool := negb (Qle_bool y x).

(** [Math.floor] *)
Definition Math_floor (x : Q) : Z := Qfloor x.

(** [Math.trunc]: rounding toward zero, used by the [%] operator. *)
Definition Math_trunc (x : Q) : Z :=
  if Qle_bool 0 x then Qfloor x else (- Qfloor (- x))%Z.

(** The JavaScript remainder [x % y]: its sign is the sign of [x]. *)
Definition js_rem (x y : Q) : Q := x - y * inject_Z (Math_trunc (x / y)).

(** [Math.round]: round half toward positive infinity. *)
Definition Math_round (x : Q) : Z := Qfloor (x + (1 # 2)).

(** [arr[i]] on an array: [undefined] (here [None]) out of range. *)
Definition js_index {A} (l : list A) (i : Z) : option A :=
  if (i <? 0)%Z then None else nth_error l (Z.to_nat i).

(** [arr.findIndex(p)]: [-1] when no element satisfies [p]. *)
Fixpoint findIndex {A} (p : A -> bool) (l : list A) : Z :=
  match l with
  | [] => (-1)%Z
  | x :: xs => if p x then 0%Z else
      let k := findIndex p xs in if (k <? 0)%Z then k else (k + 1)%Z
  end.

(** [Array.prototype.sort(cmp)].  The language requires the sort to be
    stable, and for a consistent comparator the stable sorted order is
    unique, so a stable insertion sort computes exactly what the engine
    returns.  An element [y] already placed stays before [x] when
    [cmp(y, x) <= 0]. *)
Fixpoint insert_by {A} (cmp : A -> A -> Q) (x : A) (l : list A) : list A :=
  match l with
  | [] => [x]
  | y :: ys => if Qle_bool (cmp y x) 0 then y :: insert_by cmp x ys else x :: l
  end.

Definition js_sort {A} (cmp : A -> A -> Q) (l : list A) : list A :=
  fold_left (fun acc x => insert_by cmp x acc) l [].

(** ** Exceptions *)

(** A computation that may throw: [Err] carries the thrown message. *)
Inductive Result (A : Type) : Type :=
| Ok : A -> Result A
| Err : string -> Result A.
Arguments Ok {A} _.
Arguments Err {A} _.

Definition bind {A B} (m : Result A) (f : A -> Result B) : Result B :=
  match m with Ok a => f a | Err e => Err e end.

Notation "'let*' x ':=' m 'in' f" := (bind m (fun x => f))
  (at level 200, x name, m at level 100, f at level 200).

Fixpoint mapM {A B} (f : A -> Result B) (l : list A) : Result (list B) :=
  match l with
  | [] => Ok []
  | x :: xs => let* y := f x in let* ys := mapM f xs in Ok (y :: ys)
  end.

(** Reading a property of [undefined] throws a TypeError. *)
Definition deref {A} (o : option A) : Result A :=
  match o with Some a => Ok a | None => Err "TypeError: undefined"%string end.

(** ** The zodiac table *)

Record ZodiacSign := {
  z_name : string;
  z_symbol : string;
  z_startDegree : Q;
  z_element : string
}.

(** [ZODIAC_SIGNS] of the constants module (the table exported after the
    wheel component): name, symbol, start degree and element of each sign.  The symbols are the sign characters
    followed by the text presentation selector, written as their UTF-8
    bytes. *)
Definition ZODIAC_SIGNS : list ZodiacSign :=
  [ {| z_name := "Aries"; z_symbol := "♈︎"; z_startDegree := 0;
       z_element := "fire" |};
    {| z_name := "Taurus"; z_symbol := "♉︎"; z_startDegree := 30;
       z_element := "earth" |};
    {| z_name := "Gemini"; z_symbol := "♊︎"; z_startDegree := 60;
       z_element := "air" |};
    {| z_name := "Cancer"; z_symbol := "♋︎"; z_startDegree := 90;
       z_element := "water" |};
    {| z_name := "Leo"; z_symbol := "♌︎"; z_startDegree := 120;
       z_element := "fire" |};
    {| z_name := "Virgo"; z_symbol := "♍︎"; z_startDegree := 150;
       z_element := "earth" |};
    {| z_name := "Libra"; z_symbol := "♎︎"; z_startDegree := 180;
       z_element := "air" |};
    {| z_name := "Scorpio"; z_symbol := "♏︎"; z_startDegree := 210;
       z_element := "water" |};
    {| z_name := "Sagittarius"; z_symbol := "♐︎"; z_startDegree := 240;
       z_element := "fire" |};
    {| z_name := "Capricorn"; z_symbol := "♑︎"; z_startDegree := 270;
       z_element := "earth" |};
    {| z_name := "Aquarius"; z_symbol := "♒︎"; z_startDegree := 300;
       z_element := "air" |};
    {| z_name := "Pisces"; z_symbol := "♓︎"; z_startDegree := 330;
       z_element := "water" |} ]%string.

(** ** [getZodiacInfo] *)

(** [const normalized = (longitude + 360) % 360;] *)
Definition normalize (longitude : Q) : Q := js_rem (longitude + 360) 360.

(** [getZodiacInfo]: the sign is [undefined] ([None]) when the index falls
    outside the table. *)
Definition getZodiacInfo (longitude : Q) : option ZodiacSign * Q :=
  let normalized := normalize longitude in
  let signIndex := Math_floor (normalized / 30) in
  let sign := js_index ZODIAC_SIGNS signIndex in
  let relativeDegree := js_rem normalized 30 in
  (sign, relativeDegree).

(** ** Chart records (types.ts) *)

Record PlanetPosition := {
  name : string;
  symbol : string;
  sign : string;
  signSymbol : string;
  degree : Q;
  relativeDegree : Q;
  house : Z;
  retrograde : bool
}.

Record Rising := { r_sign : string; r_signSymbol : string; r_degree : Q }.

Record ElementalBalance := { fire : Z; earth : Z; air : Z; water : Z }.

Record BigThree := { b_sun : string; b_moon : string; b_rising : string }.

Record CalculatedChart := {
  planets : list PlanetPosition;
  rising : Rising;
  elements : ElementalBalance;
  bigThree : BigThree
}.

Record SynastryAspect := {
  planetA : string;
  planetB : string;
  aspectType : string;
  description : string;
  orb : Q
}.

(** ** [calculateAspects] *)

Definition ORB : Q := 6.

(** The chain of threshold tests; the empty string is the code's [''] (no
    aspect). *)
Definition aspect_type (angle : Q) : string :=
  if Qle_bool (Qabs (angle - 0)) ORB then "Conjunction"%string
  else if Qle_bool (Qabs (angle - 60)) (ORB * 0.7) then "Sextile"%string
  else if Qle_bool (Qabs (angle - 90)) ORB then "Square"%string
  else if Qle_bool (Qabs (angle - 120)) ORB then "Trine"%string
  else if Qle_bool (Qabs (angle - 180)) ORB then "Opposition"%string
  else EmptyString.

(** The nested conditional of the [orb] field. *)
Definition exact_angle (type : string) : Q :=
  if String.eqb type "Conjunction" then 0
  else if String.eqb type "Sextile" then 60
  else if String.eqb type "Square" then 90
  else if String.eqb type "Trine" then 120
  else 180.

(** The shortest distance on the circle. *)
Definition shortest_angle (a b : Q) : Q :=
  let diff := Qabs (a - b) in
  if Qltb 180 diff then 360 - diff else diff.

(** The body of the inner [forEach]: what it pushes onto [aspects]. *)
Definition pair_aspect (planetA planetB : PlanetPosition) : list SynastryAspect :=
  let angle := shortest_angle (degree planetA) (degree planetB) in
  let type := aspect_type angle in
  if String.eqb type EmptyString then []
  else [ {| planetA := name planetA; planetB := name planetB;
            aspectType := type; description := EmptyString;
            orb := Qabs (angle - exact_angle type) |} ].

(** The [aspects] array after both [forEach] loops. *)
Definition collectAspects (p1 p2 : CalculatedChart) : list SynastryAspect :=
  flat_map (fun a => flat_map (fun b => pair_aspect a b) (planets p2)) (planets p1).

Definition calculateAspects (p1 p2 : CalculatedChart) : list SynastryAspect :=
  firstn 8 (js_sort (fun a b => orb a - orb b) (collectAspects p1 p2)).

(** The aspect detector as the spec describes it: separation
    [min(|a-b|, 360-|a-b|)], then the first band of the ordered table
    (name, exact angle, orb threshold) whose threshold holds, recording
    [|separation - exactAngle|]. *)
Definition spec_bands : list (string * Q * Q) :=
  [ ("Conjunction", 0, 6); ("Sextile", 60, 4.2); ("Square", 90, 6);
    ("Trine", 120, 6); ("Opposition", 180, 6) ]%string.

Definition spec_separation (a b : Q) : Q :=
  Qmin (Qabs (a - b)) (360 - Qabs (a - b)).

Definition spec_pair (A B : PlanetPosition) : list SynastryAspect :=
  let sep := spec_separation (degree A) (degree B) in
  match find (fun '(_, c, o) => Qle_bool (Qabs (sep - c)) o) spec_bands with
  | Some (t, c, _) =>
      [ {| planetA := name A; planetB := name B; aspectType := t;
           description := EmptyString; orb := Qabs (sep - c) |} ]
  | None => []
  end.

Definition spec_collect (p1 p2 : CalculatedChart) : list SynastryAspect :=
  flat_map (fun a => flat_map (fun b => spec_pair a b) (planets p2)) (planets p1).

(** Sample inputs: a body at a given longitude, and a chart holding given
    bodies (the other fields play no role in aspects and layout). *)
Definition position (n : string) (deg : Q) : PlanetPosition :=
  {| name := n; symbol := EmptyString; sign := EmptyString;
     signSymbol := EmptyString; degree := deg; relativeDegree := 0;
     house := 1; retrograde := false |}.

Definition sample_chart (ps : list PlanetPosition) : CalculatedChart :=
  {| planets := ps;
     rising := {| r_sign := EmptyString; r_signSymbol := EmptyString; r_degree := 0 |};
     elements := {| fire := 0; earth := 0; air := 0; water := 0 |};
     bigThree := {| b_sun := EmptyString; b_moon := EmptyString; b_rising := EmptyString |} |}.

(** ** [resolveCollisions] (components/ZodiacWheel.tsx) *)

Definition getDist (d1 d2 : Q) : Q :=
  let diff := Qabs (d1 - d2) in
  if Qltb 180 diff then 360 - diff else diff.

(** [PlanetPosition & { track: number; isIsolated: boolean }] *)
Record LayoutEntry := {
  entry : PlanetPosition;
  track : Z;
  isIsolated : bool
}.

(** Step 1 of the loop body.  [(i - 1 + sorted.length) % sorted.length] is
    written [(i + n - 1) mod n], the same number for [n >= 1]. *)
Definition isolation (sorted : list PlanetPosition) (planet : PlanetPosition) (i : nat) : bool :=
  let n := List.length sorted in
  let prev := nth ((i + n - 1) mod n) sorted planet in
  let next := nth ((i + 1) mod n) sorted planet in
  if (1 <? n)%nat then
    let dPrev := getDist (degree planet) (degree prev) in
    let dNext := getDist (degree planet) (degree next) in
    if Qltb dPrev 15 || Qltb dNext 15 then false else true
  else true.

(** Step 2: the tracks of the (up to) four previously processed entries
    closer than [minDeg]; [withTracks] holds the [i] entries pushed so
    far.  The set [usedTracks] is a list queried by membership. *)
Definition lookback (withTracks : list LayoutEntry) (i : nat) (deg minDeg : Q) : list Z :=
  fold_left (fun usedTracks j =>
      if (j <=? i)%nat then
        match nth_error withTracks (i - j) with
        | Some prevProcessed =>
            if Qltb (getDist deg (degree (entry prevProcessed))) minDeg
            then track prevProcessed :: usedTracks else usedTracks
        | None => usedTracks
        end
      else usedTracks) [1; 2; 3; 4]%nat [].

(** [let track = 0; while (usedTracks.has(track)) track++;] run with a step
    bound; [first_free_spec] shows the bound [length used + 1] is never the
    reason it stops. *)
Fixpoint first_free_from (fuel : nat) (used : list Z) (t : Z) : Z :=
  match fuel with
  | O => t
  | S f => if existsb (Z.eqb t) used then first_free_from f used (t + 1) else t
  end.

Definition first_free (used : list Z) : Z :=
  first_free_from (S (List.length used)) used 0.

(** The [sorted.forEach] loop, from index [i] on, with the entries pushed so
    far in [withTracks]. *)
Fixpoint assign (sorted : list PlanetPosition) (minDeg : Q)
    (rest : list PlanetPosition) (i : nat) (withTracks : list LayoutEntry)
    : list LayoutEntry :=
  match rest with
  | [] => withTracks
  | planet :: rest' =>
      let isIsolated := isolation sorted planet i in
      let usedTracks := lookback withTracks i (degree planet) minDeg in
      let track := first_free usedTracks in
      assign sorted minDeg rest' (S i)
        (withTracks ++ [ {| entry := planet; track := track; isIsolated := isIsolated |} ])
  end.

(** The wrap-around patch: [first.track = first.track + 1] mutates the
    object at index 0, a different object from the last one. *)
Definition wrap_patch (minDeg : Q) (withTracks : list LayoutEntry) : list LayoutEntry :=
  match withTracks with
  | first :: ((_ :: _) as rest) =>
      let last := List.last withTracks first in
      if Qltb (getDist (degree (entry first)) (degree (entry last))) minDeg
         && Z.eqb (track first) (track last)
      then {| entry := entry first; track := track first + 1;
              isIsolated := isIsolated first |} :: rest
      else withTracks
  | _ => withTracks
  end.

Definition resolveCollisions (planets : list PlanetPosition) (minDeg : Q) : list LayoutEntry :=
  let sorted := js_sort (fun a b => degree a - degree b) planets in
  wrap_patch minDeg (assign sorted minDeg sorted 0 []).

(** The default [minDeg = 6]. *)
Definition resolveCollisions_default (planets : list PlanetPosition) : list LayoutEntry :=
  resolveCollisions planets 6.

(** The five entities of the spec's layout example. *)
Definition layout_example : list PlanetPosition :=
  [ position "A" 0; position "B" 2; position "C" 4; position "D" 6; position "E" 100 ]%string.

(** ** The astronomy library and the Math functions the engine calls *)

(** The collaborators of [services/astrology]: the astronomy-engine calls
    (which may throw) and the transcendental [Math] functions.  Dates are
    [date.getTime()] in milliseconds. *)
Record Env := {
  (** [Astronomy.SiderealTime(date)], Greenwich sidereal time in hours *)
  SiderealTime : Z -> Result Q;
  (** [new Astronomy.Observer(lat, lon, height)] *)
  new_Observer : Q -> Q -> Q -> Result unit;
  (** [Astronomy.Ecliptic(Astronomy.GeoVector(Body[name], MakeTime(t), true)).elon] *)
  ecliptic_elon : string -> Z -> Q;
  Math_cos : Q -> Q;
  Math_sin : Q -> Q;
  Math_tan : Q -> Q;
  Math_atan2 : Q -> Q -> Q
}.

Definition Math_PI : Q := 3.141592653589793.

(** The arithmetic of [calculateAscendant] once the sidereal time [gmst]
    is known. *)
Definition ascendant_of (env : Env) (gmst lat lon : Q) : Q :=
  let lstHours := gmst + lon / 15 in
  let lstDeg := lstHours * 15 in
  let ramc := lstDeg * Math_PI / 180 in
  let eps := 23.4392911 * Math_PI / 180 in
  let latRad := lat * Math_PI / 180 in
  let num := Math_cos env ramc in
  let den := - Math_sin env ramc * Math_cos env eps - Math_tan env latRad * Math_sin env eps in
  let ascRad := Math_atan2 env num den in
  let ascDeg := ascRad * 180 / Math_PI in
  js_rem (ascDeg + 360) 360.

Definition calculateAscendant (env : Env) (date : Z) (lat lon : Q) : Result Q :=
  let* _ := new_Observer env lat lon 0 in
  let* gmst := SiderealTime env date in
  Ok (ascendant_of env gmst lat lon).

(** ** [calculateChart] *)

Definition BODIES : list string :=
  [ "Sun"; "Moon"; "Mercury"; "Venus"; "Mars"; "Jupiter"; "Saturn"; "Uranus";
    "Neptune"; "Pluto" ]%string.

Definition PLANET_SYMBOLS (bodyName : string) : string :=
  match bodyName with
  | "Sun" => "☉" | "Moon" => "☽" | "Mercury" => "☿" | "Venus" => "♀"
  | "Mars" => "♂" | "Jupiter" => "♃" | "Saturn" => "♄" | "Uranus" => "♅"
  | "Neptune" => "♆" | "Pluto" => "♇" | _ => "undefined"
  end%string.

(** [eclipticNext.elon < longitude && (longitude - eclipticNext.elon) < 180] *)
Definition retrograde_of (longitude next : Q) : bool :=
  Qltb next longitude && Qltb (longitude - next) 180.

(** [((signIndex - ascSignIndex + 12) % 12) + 1] *)
Definition house_of (signIndex ascSignIndex : Z) : Z :=
  (Z.rem (signIndex - ascSignIndex + 12) 12 + 1)%Z.

(** [ZODIAC_SIGNS.findIndex(z => z.name === sign.name)] *)
Definition sign_index (sign : ZodiacSign) : Z :=
  findIndex (fun z => String.eqb (z_name z) (z_name sign)) ZODIAC_SIGNS.

(** The body of [BODIES.map]. *)
Definition planet_of (env : Env) (date : Z) (ascSignIndex : Z) (bodyName : string)
    : Result PlanetPosition :=
  let longitude := ecliptic_elon env bodyName date in
  let next := ecliptic_elon env bodyName (date + 3600000)%Z in
  let retrograde := retrograde_of longitude next in
  let '(signOpt, relativeDegree) := getZodiacInfo longitude in
  let* sign := deref signOpt in
  let signIndex := sign_index sign in
  let house := house_of signIndex ascSignIndex in
  Ok {| name := bodyName; symbol := PLANET_SYMBOLS bodyName; sign := z_name sign;
        signSymbol := z_symbol sign; degree := longitude;
        relativeDegree := relativeDegree; house := house; retrograde := retrograde |}.

Record Counts := { c_fire : Z; c_earth : Z; c_air : Z; c_water : Z }.

(** [if (el && el in counts) counts[el]++] for a non-empty [el]. *)
Definition count_element (counts : Counts) (el : string) : Counts :=
  let '{| c_fire := f; c_earth := e; c_air := a; c_water := w |} := counts in
  if String.eqb el "fire" then {| c_fire := f + 1; c_earth := e; c_air := a; c_water := w |}
  else if String.eqb el "earth" then {| c_fire := f; c_earth := e + 1; c_air := a; c_water := w |}
  else if String.eqb el "air" then {| c_fire := f; c_earth := e; c_air := a + 1; c_water := w |}
  else if String.eqb el "water" then {| c_fire := f; c_earth := e; c_air := a; c_water := w + 1 |}
  else counts.

(** [ZODIAC_SIGNS.find(z => z.name === p.sign)?.element] *)
Definition element_of_sign (signName : string) : option string :=
  option_map z_element (find (fun z => String.eqb (z_name z) signName) ZODIAC_SIGNS).

(** The body of [planets.forEach]. *)
Definition count_step (counts : Counts) (p : PlanetPosition) : Counts :=
  match element_of_sign (sign p) with
  | Some el => count_element counts el
  | None => counts
  end.

Definition countElements (planets : list PlanetPosition) : Counts :=
  fold_left count_step planets {| c_fire := 0; c_earth := 0; c_air := 0; c_water := 0 |}.

(** The number of bodies counted. *)
Definition counts_total (c : Counts) : Z := (c_fire c + c_earth c + c_air c + c_water c)%Z.

(** [Math.round((count / total) * 100)] *)
Definition percentage (count total : Z) : Z :=
  Math_round (inject_Z count / inject_Z total * 100).

(** [const waterPct = 100 - firePct - earthPct - airPct;] *)
Definition waterPct (counts : Counts) (total : Z) : Z :=
  (100 - percentage (c_fire counts) total - percentage (c_earth counts) total
       - percentage (c_air counts) total)%Z.

Definition elementalBalance (counts : Counts) (total : Z) : ElementalBalance :=
  {| fire := percentage (c_fire counts) total;
     earth := percentage (c_earth counts) total;
     air := percentage (c_air counts) total;
     water := if (waterPct counts total <? 0)%Z then 0%Z else waterPct counts total |}.

(** The template [`${sun?.sign}`]. *)
Definition sign_text (p : option PlanetPosition) : string :=
  match p with Some p => sign p | None => "undefined"%string end.

Definition calculateChart (env : Env) (date : Z) (lat lon : Q) : Result CalculatedChart :=
  let* ascDegree := calculateAscendant env date lat lon in
  let '(ascSignOpt, _) := getZodiacInfo ascDegree in
  let* ascSign := deref ascSignOpt in
  let ascSignIndex := sign_index ascSign in
  let* planets := mapM (planet_of env date ascSignIndex) BODIES in
  let counts := countElements planets in
  let total := Z.max (Z.of_nat (List.length planets)) 1 in
  let elements := elementalBalance counts total in
  let sun := find (fun p => String.eqb (name p) "Sun") planets in
  let moon := find (fun p => String.eqb (name p) "Moon") planets in
  Ok {| planets := planets;
        rising := {| r_sign := z_name ascSign; r_signSymbol := z_symbol ascSign;
                     r_degree := ascDegree |};
        elements := elements;
        bigThree := {| b_sun := sign_text sun; b_moon := sign_text moon;
                       b_rising := z_name ascSign |} |}.

(** A sample environment: an Observer that accepts latitudes in
    [-90, 90], a sidereal time of 0 hours, fixed ecliptic longitudes
    (Mercury moving backwards by one degree per hour), and stand-in values
    for the Math functions; [Math_tan] returns the double that [Math.tan]
    gives at [Math.PI / 2]. *)
Definition sample_env : Env :=
  {| SiderealTime := fun _ => Ok 0;
     new_Observer := fun lat _ _ =>
       if Qltb 90 (Qabs lat) then Err "Latitude out of range"%string else Ok tt;
     ecliptic_elon := fun b t =>
       if String.eqb b "Mercury" then (if Z.eqb t 0 then 100 else 99)
       else inject_Z ((Z.of_nat (String.length b) * 37) mod 360);
     Math_cos := fun _ => 1;
     Math_sin := fun _ => 0;
     Math_tan := fun _ => 16331239353195370;
     Math_atan2 := fun _ _ => 0 |}.

(** ** The wheel's plotted planets and aspect lines (ZodiacWheel) *)

(** A plotted planet: [{ ...p, x, y, r, owner }] of [plottedPlanetsA] and
    [plottedPlanetsB].  The screen coordinates [x], [y] (cosine and sine of
    the rotated degree) are left out: the lines drawn and the radii do not
    depend on them. *)
Record Plotted := {
  p_entry : LayoutEntry;
  p_r : Q;
  owner : string
}.

Definition wheel_radius : Q := 300.
Definition trackSpacing : Q := 18.

(** [plottedPlanetsA]: person A starts inside the ring and stacks inward. *)
Definition plottedPlanetsA (planets : list PlanetPosition) : list Plotted :=
  let baseR := wheel_radius * 0.82 in
  map (fun p => {| p_entry := p; p_r := baseR - inject_Z (track p) * trackSpacing;
                   owner := "A"%string |}) (resolveCollisions_default planets).

(** [plottedPlanetsB]: person B starts from the centre and stacks outward;
    [[]] without secondary data. *)
Definition plottedPlanetsB (secondary : option (list PlanetPosition)) : list Plotted :=
  match secondary with
  | None => []
  | Some planets =>
      let baseR := wheel_radius * 0.45 in
      map (fun p => {| p_entry := p; p_r := baseR + inject_Z (track p) * trackSpacing;
                       owner := "B"%string |}) (resolveCollisions_default planets)
  end.

Definition p_name (p : Plotted) : string := name (entry (p_entry p)).
Definition p_degree (p : Plotted) : Q := degree (entry (p_entry p)).

(** The threshold chain of [aspectLines]; [secondary] is the truthiness of
    [secondaryData]. *)
Definition line_type (normDiff : Q) (secondary : bool) : string :=
  if Qltb (Qabs (normDiff - 180)) 6 then "opposition"%string
  else if Qltb (Qabs (normDiff - 120)) 6 then "trine"%string
  else if Qltb (Qabs (normDiff - 90)) 6 then "square"%string
  else if Qltb (Qabs (normDiff - 60)) 4 then "sextile"%string
  else if Qltb (Qabs (normDiff - 0)) 6 && secondary then "conjunction"%string
  else EmptyString.

(** [p.name === active.planet.name && p.owner === active.owner] *)
Definition is_active (active : option (string * string)) (p : Plotted) : bool :=
  match active with
  | Some (n, o) => String.eqb (p_name p) n && String.eqb (owner p) o
  | None => false
  end.

(** The inner [forEach] body at indices [i], [j]: the line it pushes, as the
    pair it joins and its type (which fixes its key and styling). *)
Definition line_of (secondary : bool) (active : option (string * string))
    (i j : nat) (p1 p2 : Plotted) : list (Plotted * Plotted * string) :=
  if negb secondary && (j <=? i)%nat then []
  else if (match active with Some _ => true | None => false end)
          && negb (is_active active p1) && negb (is_active active p2) then []
  else
    let diff := Qabs (p_degree p1 - p_degree p2) in
    let normDiff := if Qltb 180 diff then 360 - diff else diff in
    let type := line_type normDiff secondary in
    if String.eqb type EmptyString then [] else [(p1, p2, type)].

Definition indexed {A} (l : list A) : list (nat * A) := combine (seq 0 (List.length l)) l.

(** [aspectLines]: [set1] is A's plotted planets, [set2] B's in synastry
    and A's again otherwise. *)
Definition aspectLines (plottedA plottedB : list Plotted) (secondary : bool)
    (active : option (string * string)) : list (Plotted * Plotted * string) :=
  let set2 := if secondary then plottedB else plottedA in
  flat_map (fun '(i, p1) =>
    flat_map (fun '(j, p2) => line_of secondary active i j p1 p2) (indexed set2))
    (indexed plottedA).

(** The aspect names of [calculateAspects] in the wheel's lower case. *)
Definition lower_aspect (t : string) : string :=
  if String.eqb t "Conjunction" then "conjunction"%string
  else if String.eqb t "Sextile" then "sextile"%string
  else if String.eqb t "Square" then "square"%string
  else if String.eqb t "Trine" then "trine"%string
  else if String.eqb t "Opposition" then "opposition"%string
  else EmptyString.

(** The concentric track circles of [tracks]: [Math.max(...tracks, 0)]
    and one circle for each [i] from [0] to it. *)
Definition max_track (pl : list Plotted) : Z :=
  fold_left (fun m p => Z.max m (track (p_entry p))) pl 0%Z.

Definition track_circles_A (plA : list Plotted) : list Q :=
  map (fun i => wheel_radius * 0.82 - inject_Z (Z.of_nat i) * trackSpacing)
      (seq 0 (S (Z.to_nat (max_track plA)))).

Definition track_circles_B (plB : list Plotted) : list Q :=
  map (fun i => wheel_radius * 0.45 + inject_Z (Z.of_nat i) * trackSpacing)
      (seq 0 (S (Z.to_nat (max_track plB)))).

(** ** [getNormalizedElements] (AnalysisPanel) *)

(** [Number(elements.fire || 0)] is the number itself for the integer
    percentages of a chart. *)
Definition getNormalizedElements (elements : ElementalBalance) : ElementalBalance :=
  let f := fire elements in let e := earth elements in
  let a := air elements in let w := water elements in
  let total := (f + e + a + w)%Z in
  if Z.eqb total 0 then {| fire := 0; earth := 0; air := 0; water := 0 |}
  else if (20 <? total)%Z then {| fire := f; earth := e; air := a; water := w |}
  else {| fire := percentage f total; earth := percentage e total;
          air := percentage a total; water := percentage w total |}.

(** ** The [keyAspects] merge of [analyzeSynastry] (geminiService) *)

(** An item of the validated [SynastryAnalysisSchema.keyAspects]. *)
Record KeyAspect := {
  ka_planetA : string; ka_planetB : string; ka_aspectType : string; ka_description : string
}.

(** The [keyAspects] map of [analyzeSynastry]: the orb of the first
    calculated aspect with the same bodies and type, [0] when none. *)
Definition keyAspects (aspects : list SynastryAspect) (kas : list KeyAspect) : list SynastryAspect :=
  map (fun ka =>
    let original := find (fun a => String.eqb (planetA a) (ka_planetA ka)
                                   && String.eqb (planetB a) (ka_planetB ka)
                                   && String.eqb (aspectType a) (ka_aspectType ka)) aspects in
    {| planetA := ka_planetA ka; planetB := ka_planetB ka; aspectType := ka_aspectType ka;
       description := ka_description ka;
       orb := match original with Some a => orb a | None => 0 end |}) kas.

(** A placeholder record for reading the head of a list of aspects. *)
Definition sample_aspect_default : SynastryAspect :=
  {| planetA := EmptyString; planetB := EmptyString; aspectType := EmptyString;
     description := EmptyString; orb := 0 |}.

(** * Proofs *)

(** ** Floors and remainders *)

Lemma Qfloor_unique (z : Z) (q : Q) :
  inject_Z z <= q -> q < inject_Z z + 1 -> Qfloor q = z.
Proof.
  intros H1 H2.
  pose proof (Qfloor_le q) as F1. pose proof (Qlt_floor q) as F2.
  rewrite inject_Z_plus in F2. replace (inject_Z 1) with 1 in F2 by reflexivity.
  assert (A : inject_Z z < inject_Z (Qfloor q + 1)).
  { rewrite inject_Z_plus. change (inject_Z 1) with 1. lra. }
  assert (B : inject_Z (Qfloor q) < inject_Z (z + 1)).
  { rewrite inject_Z_plus. change (inject_Z 1) with 1. lra. }
  rewrite <- Zlt_Qlt in A, B. lia.
Qed.

(** For a non-negative dividend whose quotient by 360 lies in [k, k+1), the
    remainder is [y - 360 k]. *)
Lemma js_rem_360 (y : Q) (k : Z) :
  0 <= y -> 360 * inject_Z k <= y -> y < 360 * inject_Z k + 360 ->
  js_rem y 360 == y - 360 * inject_Z k.
Proof.
  intros H0 H1 H2. unfold js_rem, Math_trunc.
  assert (Hq : 0 <= y / 360).
  { apply Qle_shift_div_l; lra. }
  rewrite (proj2 (Qle_bool_iff 0 (y / 360)) Hq).
  rewrite (Qfloor_unique k (y / 360)); [reflexivity| |].
  - apply Qle_shift_div_l; lra.
  - apply Qlt_shift_div_r; lra.
Qed.

Lemma js_rem_360_bounds (y : Q) :
  0 <= y -> 0 <= js_rem y 360 /\ js_rem y 360 < 360.
Proof.
  intros H0. set (k := Qfloor (y / 360)).
  pose proof (Qfloor_le (y / 360)) as F1. pose proof (Qlt_floor (y / 360)) as F2.
  fold k in F1, F2. rewrite inject_Z_plus in F2.
  replace (inject_Z 1) with 1 in F2 by reflexivity.
  assert (E : y / 360 * 360 == y) by (field; discriminate).
  assert (L : 360 * inject_Z k <= y).
  { assert (inject_Z k * 360 <= y / 360 * 360) by
      (apply Qmult_le_r; [reflexivity | exact F1]).
    lra. }
  assert (U : y < 360 * inject_Z k + 360).
  { assert (y / 360 * 360 < (inject_Z k + 1) * 360) by
      (apply Qmult_lt_r; [reflexivity | exact F2]).
    lra. }
  rewrite (js_rem_360 y k H0 L U). split; lra.
Qed.

(** ** C2: the normalization of [getZodiacInfo] *)

Lemma normalize_range (x : Q) :
  -360 <= x -> 0 <= normalize x /\ normalize x < 360.
Proof. intros H. unfold normalize. apply js_rem_360_bounds. lra. Qed.

Lemma normalize_fixed (r : Q) : 0 <= r -> r < 360 -> normalize r == r.
Proof.
  intros H0 H1. unfold normalize.
  rewrite (js_rem_360 (r + 360) 1); change (inject_Z 1) with 1; lra.
Qed.

(** C2 (counterexample): the claim that for every real [x] the
    normalization lands in [0, 360) and is idempotent fails at [x = -400]:
    [(-400 + 360) % 360 = -40], and normalizing [-40] gives [320]. *)
Lemma normalize_counterexample :
  normalize (-400) == -40 /\ normalize (normalize (-400)) == 320 /\
  ~ (forall x, (0 <= normalize x /\ normalize x < 360) /\
               normalize (normalize x) == normalize x).
Proof.
  assert (E1 : normalize (-400) == -40) by reflexivity.
  assert (E2 : normalize (normalize (-400)) == 320) by reflexivity.
  split; [exact E1 | split; [exact E2 |]].
  intros H. destruct (H (-400)) as [[H1 _] _]. rewrite E1 in H1.
  lra.
Qed.

(** C2 (amended): for every longitude [x >= -360] (which covers all values
    the code normalizes: ecliptic longitudes in [0, 360) and the already
    normalized ascendant), [(x + 360) % 360] lies in [0, 360) and
    normalizing twice gives the same value as normalizing once. *)
Theorem normalize_range_idempotent (x : Q) :
  -360 <= x ->
  (0 <= normalize x /\ normalize x < 360) /\
  normalize (normalize x) == normalize x.
Proof.
  intros H. pose proof (normalize_range x H) as [H0 H1].
  split; [split; assumption | apply normalize_fixed; assumption].
Qed.

Lemma normalize_range_idempotent_witness :
  -360 <= -300 /\
  ((0 <= normalize (-300) /\ normalize (-300) < 360) /\
   normalize (normalize (-300)) == normalize (-300)).
Proof.
  assert (H : -360 <= -300) by (vm_compute; discriminate).
  split; [exact H | apply (normalize_range_idempotent (-300)); exact H].
Defined.

(** ** C4: classification of a cross pair *)

Lemma Qle_bool_comp_r (x y z : Q) : y == z -> Qle_bool x y = Qle_bool x z.
Proof.
  intros E. destruct (Qle_bool x y) eqn:H1, (Qle_bool x z) eqn:H2; try reflexivity.
  - apply Qle_bool_iff in H1. rewrite E in H1. apply Qle_bool_iff in H1. congruence.
  - apply Qle_bool_iff in H2. rewrite <- E in H2. apply Qle_bool_iff in H2. congruence.
Qed.

Lemma shortest_angle_spec (a b : Q) : shortest_angle a b = spec_separation a b.
Proof.
  unfold shortest_angle, spec_separation, Qltb, Qmin, GenericMinMax.gmin.
  set (d := Qabs (a - b)).
  destruct (Qle_bool d 180) eqn:E; simpl.
  - apply Qle_bool_iff in E.
    destruct (Qcompare_spec d (360 - d)); [reflexivity | reflexivity | lra].
  - assert (E' : ~ d <= 180) by (intro H; apply Qle_bool_iff in H; congruence).
    destruct (Qcompare_spec d (360 - d)); [lra | lra | reflexivity].
Qed.

Lemma pair_aspect_spec (A B : PlanetPosition) : pair_aspect A B = spec_pair A B.
Proof.
  unfold pair_aspect, spec_pair, aspect_type, ORB.
  rewrite shortest_angle_spec.
  set (s := spec_separation (degree A) (degree B)).
  rewrite (Qle_bool_comp_r (Qabs (s - 60)) (6 * 0.7) 4.2) by reflexivity.
  cbn [find spec_bands].
  destruct (Qle_bool (Qabs (s - 0)) 6); [reflexivity |].
  destruct (Qle_bool (Qabs (s - 60)) 4.2); [reflexivity |].
  destruct (Qle_bool (Qabs (s - 90)) 6); [reflexivity |].
  destruct (Qle_bool (Qabs (s - 120)) 6); [reflexivity |].
  destruct (Qle_bool (Qabs (s - 180)) 6); reflexivity.
Qed.

(** C4: every cross pair (A from the first chart, B from the second, in
    that enumeration order) is classified as the spec's ordered band table
    says: separation [min(|a-b|, 360-|a-b|)], first band among conjunction
    (0, orb 6), sextile (60, orb 4.2), square (90, 6), trine (120, 6),
    opposition (180, 6) within its threshold, a record with orb
    [|separation - exactAngle|], and no record when no band matches; and
    bodies at 10 and 70 degrees are exactly 60 degrees apart and give one
    Sextile record with orb 0. *)
Theorem calculateAspects_classification :
  (forall p1 p2 : CalculatedChart, collectAspects p1 p2 = spec_collect p1 p2) /\
  shortest_angle 10 70 == 60 /\
  calculateAspects (sample_chart [position "A" 10]) (sample_chart [position "B" 70]) =
    [ {| planetA := "A"; planetB := "B"; aspectType := "Sextile";
         description := EmptyString; orb := 0 |} ]%string.
Proof.
  split; [| split; reflexivity].
  intros p1 p2. unfold collectAspects, spec_collect.
  apply flat_map_ext. intros a. apply flat_map_ext. intros b.
  apply pair_aspect_spec.
Qed.

(** ** The stable sort by a numeric key *)

Section KeySort.
Context {A : Type} (k : A -> Q).

Let cmp (a b : A) : Q := k a - k b.
Let R (a b : A) : Prop := k a <= k b.
Let tie (q : Q) (r : A) : bool := Qeq_bool (k r) q.

Lemma cmp_le (y x : A) : Qle_bool (cmp y x) 0 = true <-> k y <= k x.
Proof. unfold cmp. rewrite Qle_bool_iff. split; intros; lra. Qed.

Lemma cmp_gt (y x : A) : Qle_bool (cmp y x) 0 = false -> k x < k y.
Proof.
  intros H. destruct (Qlt_le_dec (k x) (k y)) as [Hl|Hl]; [exact Hl|].
  assert (Qle_bool (cmp y x) 0 = true) by (apply cmp_le; exact Hl). congruence.
Qed.

Lemma insert_by_HdRel (x y : A) (l : list A) :
  R y x -> HdRel R y l -> HdRel R y (insert_by cmp x l).
Proof.
  intros Hyx Hl. destruct l as [|z zs]; simpl.
  - constructor. exact Hyx.
  - destruct (Qle_bool (cmp z x) 0); constructor; [inversion Hl; assumption | exact Hyx].
Qed.

Lemma insert_by_sorted (x : A) (l : list A) :
  Sorted R l -> Sorted R (insert_by cmp x l).
Proof.
  induction l as [|y ys IH]; intros Hs; simpl.
  - repeat constructor.
  - apply Sorted_inv in Hs as [Hs Hh].
    destruct (Qle_bool (cmp y x) 0) eqn:E.
    + constructor; [exact (IH Hs)|].
      apply insert_by_HdRel; [apply cmp_le; exact E | exact Hh].
    + constructor; [constructor; assumption|].
      constructor. unfold R. apply Qlt_le_weak, cmp_gt. exact E.
Qed.

Lemma insert_by_perm (x : A) (l : list A) : Permutation (insert_by cmp x l) (x :: l).
Proof.
  induction l as [|y ys IH]; simpl; [reflexivity|].
  destruct (Qle_bool (cmp y x) 0); [|reflexivity].
  rewrite IH. apply perm_swap.
Qed.

Lemma R_trans : Relations_1.Transitive R.
Proof. intros a b c H1 H2. unfold R in *. lra. Qed.

Lemma tie_filter_above (q : Q) (l : list A) (x : A) :
  k x == q -> Forall (fun z => k x < k z) l -> filter (tie q) l = [].
Proof.
  intros Hx Hl. induction Hl as [|z zs Hz Hzs IH]; simpl; [reflexivity|].
  unfold tie at 1. destruct (Qeq_bool (k z) q) eqn:E; [|exact IH].
  apply Qeq_bool_iff in E. lra.
Qed.

(** Inserting [x] into a sorted list puts it after every element of equal
    key. *)
Lemma insert_by_filter (q : Q) (x : A) (l : list A) :
  Sorted R l -> filter (tie q) (insert_by cmp x l) = filter (tie q) l ++ filter (tie q) [x].
Proof.
  induction l as [|y ys IH]; intros Hs; [reflexivity|].
  pose proof Hs as Hss. apply Sorted_inv in Hs as [Hs _].
  cbn [insert_by]. destruct (Qle_bool (cmp y x) 0) eqn:E.
  - cbn [filter]. destruct (tie q y); rewrite (IH Hs); reflexivity.
  - pose proof (cmp_gt y x E) as Hxy.
    change (filter (tie q) (x :: y :: ys)) with
      (if tie q x then x :: filter (tie q) (y :: ys) else filter (tie q) (y :: ys)).
    change (filter (tie q) [x]) with (if tie q x then [x] else []).
    destruct (tie q x) eqn:Tx.
    + assert (Hq : k x == q) by (apply Qeq_bool_iff; exact Tx).
      rewrite (tie_filter_above q (y :: ys) x Hq).
      * reflexivity.
      * apply Sorted_StronglySorted in Hss; [|exact R_trans].
        apply StronglySorted_inv in Hss as [_ Hf].
        constructor; [exact Hxy|].
        eapply Forall_impl; [|exact Hf]. intros z Hz. unfold R in Hz. lra.
    + now rewrite app_nil_r.
Qed.

Lemma js_sort_fold (l acc : list A) :
  Sorted R acc ->
  Sorted R (fold_left (fun acc x => insert_by cmp x acc) l acc) /\
  Permutation (fold_left (fun acc x => insert_by cmp x acc) l acc) (acc ++ l) /\
  (forall q, filter (tie q) (fold_left (fun acc x => insert_by cmp x acc) l acc) =
             filter (tie q) acc ++ filter (tie q) l).
Proof.
  revert acc. induction l as [|x xs IH]; intros acc Hs; simpl.
  - split; [exact Hs | split; [rewrite app_nil_r; reflexivity | intros; now rewrite app_nil_r]].
  - destruct (IH (insert_by cmp x acc) (insert_by_sorted x acc Hs)) as [H1 [H2 H3]].
    split; [exact H1 | split].
    + rewrite H2, insert_by_perm. apply Permutation_middle.
    + intros q. rewrite H3, insert_by_filter by exact Hs.
      rewrite <- app_assoc. simpl. destruct (tie q x); reflexivity.
Qed.

Lemma js_sort_props (l : list A) :
  Sorted R (js_sort cmp l) /\ Permutation (js_sort cmp l) l /\
  (forall q, filter (tie q) (js_sort cmp l) = filter (tie q) l).
Proof.
  destruct (js_sort_fold l [] (Sorted_nil R)) as [H1 [H2 H3]].
  split; [exact H1 | split; [exact H2 | exact H3]].
Qed.

Lemma Sorted_firstn (n : nat) (l : list A) : Sorted R l -> Sorted R (firstn n l).
Proof.
  revert l. induction n as [|n IH]; intros l Hs; [constructor|].
  destruct l as [|x xs]; [constructor|]. simpl.
  apply Sorted_inv in Hs as [Hs Hh]. constructor; [exact (IH xs Hs)|].
  destruct n, xs; simpl; try constructor. inversion Hh. assumption.
Qed.

End KeySort.

(** C5: the list returned by [calculateAspects] is sorted ascending by orb,
    has at most 8 records, each taken from the pair enumeration, and for
    every orb value the records with that orb appear in the enumeration
    order: they are a prefix of the enumeration's records of that orb. *)
Theorem calculateAspects_sorted_stable (p1 p2 : CalculatedChart) :
  Sorted (fun a b => orb a <= orb b) (calculateAspects p1 p2) /\
  (List.length (calculateAspects p1 p2) <= 8)%nat /\
  (forall r, In r (calculateAspects p1 p2) -> In r (collectAspects p1 p2)) /\
  (forall q, exists rest,
     filter (fun r => Qeq_bool (orb r) q) (collectAspects p1 p2) =
     filter (fun r => Qeq_bool (orb r) q) (calculateAspects p1 p2) ++ rest).
Proof.
  unfold calculateAspects. set (l := collectAspects p1 p2).
  destruct (js_sort_props orb l) as [Hs [Hp Hf]].
  set (s := js_sort (fun a b => orb a - orb b) l) in *.
  split; [apply Sorted_firstn; exact Hs|].
  split; [apply firstn_le_length|].
  split.
  - intros r Hr. apply (Permutation_in r Hp). rewrite <- (firstn_skipn 8 s).
    apply in_or_app. left. exact Hr.
  - intros q. exists (filter (fun r => Qeq_bool (orb r) q) (skipn 8 s)).
    rewrite <- filter_app, firstn_skipn. symmetry. apply Hf.
Qed.

(** ** C8: the spec's layout example *)

(** C8 (counterexample): on [0, 2, 4, 6, 100] with the default 6 degrees the
    first four entities do not get tracks 0, 1, 2, 3: the entity at 6 is
    exactly 6 degrees from the one at 0, not below the threshold, so track
    0 is free for it again. *)
Lemma layout_example_counterexample :
  map track (resolveCollisions_default layout_example) = [0; 1; 2; 0; 0]%Z /\
  ~ (firstn 4 (map track (resolveCollisions_default layout_example)) = [0; 1; 2; 3]%Z /\
     nth_error (resolveCollisions_default layout_example) 4 =
       Some {| entry := position "E" 100; track := 0; isIsolated := true |}).
Proof.
  split; [vm_compute; reflexivity|].
  intros [H _]. vm_compute in H. discriminate H.
Qed.

(** C8 (amended): on [0, 2, 4, 6, 100] with the default 6 degrees the
    entities keep their order and get tracks 0, 1, 2, 0 and 0; the first
    four are not isolated and the entity at 100 is isolated. *)
Theorem layout_example_tracks :
  map (fun e => degree (entry e)) (resolveCollisions_default layout_example) = [0; 2; 4; 6; 100] /\
  map track (resolveCollisions_default layout_example) = [0; 1; 2; 0; 0]%Z /\
  map isIsolated (resolveCollisions_default layout_example) = [false; false; false; false; true].
Proof. vm_compute. split; [reflexivity | split; reflexivity]. Qed.

(** ** C10: bounds on the assigned tracks *)

Lemma NoDup_Zseq (s n : nat) : NoDup (map Z.of_nat (seq s n)).
Proof.
  revert s. induction n as [|n IH]; intros s; simpl; constructor.
  - rewrite in_map_iff. intros (y & E & Hy). apply in_seq in Hy. lia.
  - apply IH.
Qed.

(** Pigeonhole: if all of [0 .. r-1] occur in [used], then [r <= |used|]. *)
Lemma occupied_prefix_length (used : list Z) (r : Z) :
  (0 <= r)%Z -> (forall s, (0 <= s < r)%Z -> In s used) ->
  (r <= Z.of_nat (List.length used))%Z.
Proof.
  intros Hr Hall.
  assert (Hinc : incl (map Z.of_nat (seq 0 (Z.to_nat r))) used).
  { intros s Hs. apply in_map_iff in Hs as (n & <- & Hn). apply in_seq in Hn.
    apply Hall. lia. }
  pose proof (NoDup_incl_length (NoDup_Zseq 0 (Z.to_nat r)) Hinc) as L.
  rewrite length_map, length_seq in L. lia.
Qed.

Lemma first_free_from_spec (fuel : nat) (used : list Z) (t : Z) :
  let r := first_free_from fuel used t in
  (t <= r)%Z /\ (forall s, (t <= s < r)%Z -> In s used) /\
  (~ In r used \/ r = t + Z.of_nat fuel)%Z.
Proof.
  revert t. induction fuel as [|f IH]; intros t; simpl.
  - split; [lia | split; [intros; lia | right; lia]].
  - destruct (existsb (Z.eqb t) used) eqn:E.
    + destruct (IH (t + 1)%Z) as [H1 [H2 H3]].
      apply existsb_exists in E as (x & Hx & Ex). apply Z.eqb_eq in Ex. subst x.
      split; [lia | split].
      * intros s Hs. destruct (Z.eq_dec s t) as [->|Hne]; [exact Hx|]. apply H2. lia.
      * destruct H3 as [H3|H3]; [left; exact H3 | right; lia].
    + split; [lia | split; [intros; lia | left]].
      intros Hin. assert (existsb (Z.eqb t) used = true) by
        (apply existsb_exists; exists t; split; [exact Hin | apply Z.eqb_refl]).
      congruence.
Qed.

(** The loop stops at the least track not in [used]. *)
Lemma first_free_spec (used : list Z) :
  (0 <= first_free used)%Z /\ ~ In (first_free used) used /\
  (forall s, (0 <= s < first_free used)%Z -> In s used).
Proof.
  unfold first_free.
  destruct (first_free_from_spec (S (List.length used)) used 0) as [H1 [H2 H3]].
  split; [exact H1 | split; [| exact H2]].
  destruct H3 as [H3|H3]; [exact H3|].
  exfalso. pose proof (occupied_prefix_length used _ H1 H2) as L. lia.
Qed.

Lemma first_free_le_length (used : list Z) :
  (0 <= first_free used <= Z.of_nat (List.length used))%Z.
Proof.
  destruct (first_free_spec used) as [H1 [_ H3]].
  split; [exact H1 | apply occupied_prefix_length; assumption].
Qed.

Lemma lookback_fold_length (w : list LayoutEntry) (i : nat) (deg minDeg : Q) js acc :
  (List.length (fold_left (fun usedTracks j =>
      if (j <=? i)%nat then
        match nth_error w (i - j) with
        | Some prevProcessed =>
            if Qltb (getDist deg (degree (entry prevProcessed))) minDeg
            then track prevProcessed :: usedTracks else usedTracks
        | None => usedTracks
        end
      else usedTracks) js acc) <= List.length acc + List.length js)%nat.
Proof.
  revert acc. induction js as [|j js IH]; intros acc; simpl; [lia|].
  eapply Nat.le_trans; [apply IH|].
  destruct (j <=? i)%nat; [destruct (nth_error w (i - j)) as [p|];
    [destruct (Qltb _ minDeg)|] |]; simpl; lia.
Qed.

Lemma lookback_length (w : list LayoutEntry) (i : nat) (deg minDeg : Q) :
  (List.length (lookback w i deg minDeg) <= 4)%nat.
Proof. unfold lookback. apply (lookback_fold_length w i deg minDeg [1; 2; 3; 4]%nat []). Qed.

Lemma lookback_first (w : list LayoutEntry) (deg minDeg : Q) : lookback w 0 deg minDeg = [].
Proof. reflexivity. Qed.

Lemma assign_app (sorted : list PlanetPosition) (minDeg : Q) rest i acc :
  exists added, assign sorted minDeg rest i acc = acc ++ added /\
    Forall (fun e => (0 <= track e <= 4)%Z) added.
Proof.
  revert i acc. induction rest as [|p ps IH]; intros i acc; simpl.
  - exists []. rewrite app_nil_r. split; [reflexivity | constructor].
  - destruct (IH (S i) (acc ++ [ {| entry := p;
        track := first_free (lookback acc i (degree p) minDeg);
        isIsolated := isolation sorted p i |} ])) as [added [E F]].
    exists ({| entry := p; track := first_free (lookback acc i (degree p) minDeg);
               isIsolated := isolation sorted p i |} :: added).
    rewrite E, <- app_assoc. split; [reflexivity|]. constructor; [|exact F].
    simpl. pose proof (first_free_le_length (lookback acc i (degree p) minDeg)).
    pose proof (lookback_length acc i (degree p) minDeg). lia.
Qed.

(** Before the patch the first entity has track 0 and the others at most 4. *)
Lemma assign_shape (sorted : list PlanetPosition) (minDeg : Q) (ps : list PlanetPosition) :
  assign sorted minDeg ps 0 [] = [] \/
  exists e0 tl, assign sorted minDeg ps 0 [] = e0 :: tl /\ track e0 = 0%Z /\
    Forall (fun e => (0 <= track e <= 4)%Z) tl.
Proof.
  destruct ps as [|p ps]; [left; reflexivity | right]. simpl.
  destruct (assign_app sorted minDeg ps 1 [ {| entry := p;
      track := first_free (lookback [] 0 (degree p) minDeg);
      isIsolated := isolation sorted p 0 |} ]) as [added [E F]].
  rewrite E. eexists _, added. split; [reflexivity|]. split; [reflexivity | exact F].
Qed.

(** The patch changes only the first entry, raising its track by at most one. *)
Lemma wrap_patch_shape (minDeg : Q) (e0 : LayoutEntry) (tl : list LayoutEntry) :
  track e0 = 0%Z ->
  exists e0', wrap_patch minDeg (e0 :: tl) = e0' :: tl /\ (0 <= track e0' <= 1)%Z.
Proof.
  intros T0. destruct tl as [|x xs].
  - exists e0. split; [reflexivity | lia].
  - unfold wrap_patch.
    destruct (Qltb _ minDeg && Z.eqb _ _).
    + eexists. split; [reflexivity|]. simpl. lia.
    + exists e0. split; [reflexivity | lia].
Qed.

(** C10: every track the layout resolver returns is in [0, 5]; every
    entity but the first in sorted order has track at most 4 (the
    four-entity lookback marks at most four tracks); the first entity
    starts on track 0 and only the wrap-around patch can raise it, by one. *)
Theorem resolveCollisions_track_bounds (planets : list PlanetPosition) (minDeg : Q) :
  (forall e, In e (resolveCollisions planets minDeg) -> (0 <= track e <= 5)%Z) /\
  (forall n e, (1 <= n)%nat -> nth_error (resolveCollisions planets minDeg) n = Some e ->
     (track e <= 4)%Z) /\
  (forall e, hd_error (resolveCollisions planets minDeg) = Some e -> (track e <= 1)%Z).
Proof.
  unfold resolveCollisions.
  set (sorted := js_sort (fun a b => degree a - degree b) planets).
  destruct (assign_shape sorted minDeg sorted) as [E | (e0 & tl & E & T0 & F)]; rewrite E.
  - split; [intros e [] | split; [intros [|n] e _ H; discriminate H | intros e H; discriminate H]].
  - destruct (wrap_patch_shape minDeg e0 tl T0) as (e0' & W & T0'). rewrite W.
    rewrite Forall_forall in F. split; [| split].
    + intros e [<- | He]; [lia | pose proof (F e He); lia].
    + intros n e Hn Hnth. destruct n as [|n]; [lia|]. simpl in Hnth.
      apply nth_error_In in Hnth. pose proof (F e Hnth). lia.
    + intros e He. simpl in He. injection He as <-. lia.
Qed.

(** ** C1: the ascendant at polar latitudes *)

(** C1 (counterexample): with a sidereal time of 0 hours, an Observer
    that accepts latitudes up to 90 degrees and any values of the Math
    functions, [calculateAscendant] at latitude 90 (and -90) returns a
    number instead of failing. *)
Lemma ascendant_polar_counterexample :
  (exists v, calculateAscendant sample_env 0 90 0 = Ok v /\ v == 0) /\
  (exists v, calculateAscendant sample_env 0 (-90) 0 = Ok v /\ v == 0) /\
  ~ (exists e, calculateAscendant sample_env 0 90 0 = Err e).
Proof.
  split; [eexists; split; [vm_compute; reflexivity | reflexivity]|].
  split; [eexists; split; [vm_compute; reflexivity | reflexivity]|].
  intros [e H]. vm_compute in H. discriminate H.
Qed.

(** C1 (amended): [calculateAscendant] has no latitude guard and raises no
    DomainError.  For every instant, latitude (90 and -90 included) and
    longitude it fails only by passing on an exception of the astronomy
    library (the Observer constructor or SiderealTime), and when those
    return it returns the number [ascendant_of], the formula with
    [Math.tan] evaluated at the latitude in radians. *)
Theorem calculateAscendant_no_domain_error (env : Env) (date : Z) (lat lon : Q) :
  (forall e, calculateAscendant env date lat lon = Err e ->
     new_Observer env lat lon 0 = Err e \/ SiderealTime env date = Err e) /\
  (forall gmst, new_Observer env lat lon 0 = Ok tt -> SiderealTime env date = Ok gmst ->
     calculateAscendant env date lat lon = Ok (ascendant_of env gmst lat lon)).
Proof.
  unfold calculateAscendant. split.
  - intros e. destruct (new_Observer env lat lon 0) as [[]|e'] eqn:O; simpl.
    + destruct (SiderealTime env date) as [g|e'']; simpl; [discriminate|].
      intros H. right. injection H as <-. reflexivity.
    + intros H. left. injection H as <-. reflexivity.
  - intros gmst -> ->. reflexivity.
Qed.

(** ** C3 and C9: the elemental percentages *)

Lemma percentage_tenth (c : Z) : percentage c 10 = (10 * c)%Z.
Proof.
  unfold percentage, Math_round. apply Qfloor_unique.
  - rewrite inject_Z_mult. change (inject_Z 10) with 10.
    assert (inject_Z c / 10 * 100 == inject_Z c * 10) by (field; discriminate). lra.
  - rewrite inject_Z_mult. change (inject_Z 10) with 10.
    assert (inject_Z c / 10 * 100 == inject_Z c * 10) by (field; discriminate). lra.
Qed.

(** With ten bodies each count turns into ten times itself and the water
    remainder is ten times the water count, so the clip is not taken. *)
Lemma elementalBalance_ten (f e a w : Z) :
  (0 <= w)%Z -> (f + e + a + w = 10)%Z ->
  let cs := {| c_fire := f; c_earth := e; c_air := a; c_water := w |} in
  (0 <= waterPct cs 10)%Z /\
  elementalBalance cs 10 = {| fire := 10 * f; earth := 10 * e; air := 10 * a; water := 10 * w |}.
Proof.
  intros Hw Hs. cbv zeta.
  assert (Hp : waterPct {| c_fire := f; c_earth := e; c_air := a; c_water := w |} 10 = (10 * w)%Z).
  { unfold waterPct. cbn [c_fire c_earth c_air c_water]. rewrite !percentage_tenth. lia. }
  split; [rewrite Hp; lia|].
  unfold elementalBalance. rewrite Hp. cbn [c_fire c_earth c_air c_water].
  rewrite !percentage_tenth.
  destruct (10 * w <? 0)%Z eqn:E; [apply Z.ltb_lt in E; lia | reflexivity].
Qed.

(** C3: for any counts of fire, earth, air and water bodies (non-negative,
    summing to the 10 bodies), the percentages of the chart assembly (fire,
    earth, air rounded from [count / 10 * 100], water [100] minus the other
    three, clipped at 0) sum to exactly 100. *)
Theorem elementalBalance_sum_100 (f e a w : Z) :
  (0 <= f)%Z -> (0 <= e)%Z -> (0 <= a)%Z -> (0 <= w)%Z -> (f + e + a + w = 10)%Z ->
  let b := elementalBalance {| c_fire := f; c_earth := e; c_air := a; c_water := w |} 10 in
  (fire b + earth b + air b + water b = 100)%Z.
Proof.
  intros Hf He Ha Hw Hs. cbv zeta.
  destruct (elementalBalance_ten f e a w Hw Hs) as [_ ->].
  cbn [fire earth air water]. lia.
Qed.

Lemma elementalBalance_sum_100_witness :
  ((0 <= 3)%Z /\ (0 <= 3)%Z /\ (0 <= 2)%Z /\ (0 <= 2)%Z /\ (3 + 3 + 2 + 2 = 10)%Z) /\
  (let b := elementalBalance {| c_fire := 3; c_earth := 3; c_air := 2; c_water := 2 |} 10 in
   (fire b + earth b + air b + water b = 100)%Z).
Proof.
  split; [repeat split; lia|].
  apply (elementalBalance_sum_100 3 3 2 2); lia.
Defined.

(** ** C6: the whole-sign house mapping *)

Ltac rem12 x :=
  rewrite (Z.rem_mod_nonneg x 12) by lia;
  pose proof (Z.div_mod x 12 ltac:(lia));
  pose proof (Z.mod_pos_bound x 12 ltac:(lia)).

(** C6: for an ascendant sign index in 0..11, [signIndex ->
    ((signIndex - ascSignIndex + 12) % 12) + 1] maps the sign indices 0..11
    into 1..12, injectively and onto 1..12. *)
Theorem house_of_bijection (ascSignIndex : Z) :
  (0 <= ascSignIndex <= 11)%Z ->
  (forall s, (0 <= s <= 11)%Z -> (1 <= house_of s ascSignIndex <= 12)%Z) /\
  (forall s1 s2, (0 <= s1 <= 11)%Z -> (0 <= s2 <= 11)%Z ->
     house_of s1 ascSignIndex = house_of s2 ascSignIndex -> s1 = s2) /\
  (forall h, (1 <= h <= 12)%Z ->
     exists s, (0 <= s <= 11)%Z /\ house_of s ascSignIndex = h).
Proof.
  intros Ha. unfold house_of. split; [| split].
  - intros s Hs. rem12 (s - ascSignIndex + 12)%Z. lia.
  - intros s1 s2 H1 H2.
    rem12 (s1 - ascSignIndex + 12)%Z. rem12 (s2 - ascSignIndex + 12)%Z.
    intros E. lia.
  - intros h Hh. exists ((ascSignIndex + h - 1) mod 12)%Z.
    pose proof (Z.div_mod (ascSignIndex + h - 1) 12 ltac:(lia)).
    pose proof (Z.mod_pos_bound (ascSignIndex + h - 1) 12 ltac:(lia)).
    split; [lia|].
    rem12 ((ascSignIndex + h - 1) mod 12 - ascSignIndex + 12)%Z. lia.
Qed.

Lemma house_of_bijection_witness :
  (0 <= 3 <= 11)%Z /\
  ((forall s, (0 <= s <= 11)%Z -> (1 <= house_of s 3 <= 12)%Z) /\
   (forall s1 s2, (0 <= s1 <= 11)%Z -> (0 <= s2 <= 11)%Z ->
      house_of s1 3 = house_of s2 3 -> s1 = s2) /\
   (forall h, (1 <= h <= 12)%Z -> exists s, (0 <= s <= 11)%Z /\ house_of s 3 = h)).
Proof. split; [lia | apply (house_of_bijection 3); lia]. Defined.

(** ** The bodies of a computed chart *)

Lemma mapM_ok {A B} (f : A -> Result B) (l : list A) (l' : list B) :
  mapM f l = Ok l' ->
  List.length l' = List.length l /\ (forall y, In y l' -> exists x, In x l /\ f x = Ok y).
Proof.
  revert l'. induction l as [|x xs IH]; intros l' H; simpl in H.
  - injection H as <-. split; [reflexivity | intros y []].
  - destruct (f x) as [y|e] eqn:Fx; simpl in H; [|discriminate H].
    destruct (mapM f xs) as [ys|e] eqn:Fxs; simpl in H; [|discriminate H].
    injection H as <-. destruct (IH ys eq_refl) as [L M].
    split; [simpl; rewrite L; reflexivity|].
    intros z [<- | Hz]; [exists x; split; [left; reflexivity | exact Fx]|].
    destruct (M z Hz) as (x' & Hx' & Fx'). exists x'. split; [right; exact Hx' | exact Fx'].
Qed.

Lemma calculateChart_ok (env : Env) (date : Z) (lat lon : Q) (chart : CalculatedChart) :
  calculateChart env date lat lon = Ok chart ->
  exists ascSignIndex, mapM (planet_of env date ascSignIndex) BODIES = Ok (planets chart) /\
    elements chart = elementalBalance (countElements (planets chart))
                       (Z.max (Z.of_nat (List.length (planets chart))) 1).
Proof.
  intros H. unfold calculateChart in H.
  destruct (calculateAscendant env date lat lon) as [asc|e]; cbn [bind] in H; [|discriminate H].
  destruct (getZodiacInfo asc) as [[z|] r]; cbn [bind deref] in H; [|discriminate H].
  destruct (mapM _ BODIES) as [ps|e] eqn:M; cbn [bind] in H; [|discriminate H].
  injection H as <-. cbn [planets elements]. eexists. split; [exact M | reflexivity].
Qed.

Lemma planet_of_ok (env : Env) (date asc : Z) (b : string) (p : PlanetPosition) :
  planet_of env date asc b = Ok p ->
  name p = b /\ degree p = ecliptic_elon env b date /\
  retrograde p = retrograde_of (ecliptic_elon env b date) (ecliptic_elon env b (date + 3600000)) /\
  exists z, In z ZODIAC_SIGNS /\ sign p = z_name z.
Proof.
  unfold planet_of.
  destruct (getZodiacInfo (ecliptic_elon env b date)) as [[z|] r] eqn:G; simpl; [|discriminate].
  intros H. injection H as <-. simpl.
  split; [reflexivity | split; [reflexivity | split; [reflexivity|]]].
  exists z. split; [|reflexivity].
  unfold getZodiacInfo, js_index in G.
  destruct (_ <? 0)%Z; [discriminate G|]. injection G as G _.
  apply nth_error_In in G. exact G.
Qed.

Lemma Qltb_iff (x y : Q) : Qltb x y = true <-> x < y.
Proof.
  unfold Qltb. rewrite negb_true_iff. split; intros H.
  - destruct (Qlt_le_dec x y) as [L|L]; [exact L|].
    apply Qle_bool_iff in L. congruence.
  - destruct (Qle_bool y x) eqn:E; [apply Qle_bool_iff in E; lra | reflexivity].
Qed.

(** ** C7: the retrograde flag *)

(** C7: every body of a computed chart has as degree its longitude [L0] at
    the instant and is flagged retrograde exactly when its longitude [L1]
    one hour later is smaller than [L0] and [L0 - L1 < 180]. *)
Theorem calculateChart_retrograde (env : Env) (date : Z) (lat lon : Q)
    (chart : CalculatedChart) (p : PlanetPosition) :
  calculateChart env date lat lon = Ok chart -> In p (planets chart) ->
  let L0 := ecliptic_elon env (name p) date in
  let L1 := ecliptic_elon env (name p) (date + 3600000) in
  degree p = L0 /\ (retrograde p = true <-> L1 < L0 /\ L0 - L1 < 180).
Proof.
  intros H Hp. cbv zeta.
  destruct (calculateChart_ok env date lat lon chart H) as (asc & M & _).
  destruct (mapM_ok _ _ _ M) as [_ All].
  destruct (All p Hp) as (b & _ & Pb).
  destruct (planet_of_ok env date asc b p Pb) as (-> & D & R & _).
  split; [exact D|]. rewrite R. unfold retrograde_of.
  rewrite andb_true_iff, !Qltb_iff. reflexivity.
Qed.

Lemma calculateChart_retrograde_witness :
  exists chart p,
    (calculateChart sample_env 0 0 0 = Ok chart /\ In p (planets chart)) /\
    (let L0 := ecliptic_elon sample_env (name p) 0 in
     let L1 := ecliptic_elon sample_env (name p) (0 + 3600000) in
     degree p = L0 /\ (retrograde p = true <-> L1 < L0 /\ L0 - L1 < 180)).
Proof.
  destruct (calculateChart sample_env 0 0 0) as [chart|e] eqn:E.
  - assert (Hp : In (nth 2 (planets chart) (position EmptyString 0)) (planets chart)).
    { vm_compute in E. injection E as <-. simpl. tauto. }
    exists chart, (nth 2 (planets chart) (position EmptyString 0)).
    split; [split; [reflexivity | exact Hp]|].
    exact (calculateChart_retrograde sample_env 0 0 0 chart _ E Hp).
  - vm_compute in E. discriminate E.
Defined.

(** ** C9: the percentages of a computed chart *)

Lemma element_of_table (z : ZodiacSign) :
  In z ZODIAC_SIGNS ->
  exists el, element_of_sign (z_name z) = Some el /\
    (el = "fire" \/ el = "earth" \/ el = "air" \/ el = "water")%string.
Proof.
  intros H. simpl in H.
  repeat (destruct H as [<- | H];
    [eexists; split; [reflexivity|];
     solve [repeat (first [left; reflexivity | right]); reflexivity] |]).
  destruct H.
Qed.

Lemma count_step_table (acc : Counts) (p : PlanetPosition) :
  (exists z, In z ZODIAC_SIGNS /\ sign p = z_name z) ->
  counts_total (count_step acc p) = (counts_total acc + 1)%Z /\
  (c_water acc <= c_water (count_step acc p))%Z.
Proof.
  intros (z & Hz & Hs). unfold count_step. rewrite Hs.
  destruct (element_of_table z Hz) as (el & -> & Hel).
  destruct acc as [f e a w]. unfold counts_total.
  destruct Hel as [-> | [-> | [-> | ->]]]; cbn; lia.
Qed.

Lemma countElements_total (ps : list PlanetPosition) (acc : Counts) :
  (forall p, In p ps -> exists z, In z ZODIAC_SIGNS /\ sign p = z_name z) ->
  counts_total (fold_left count_step ps acc) = (counts_total acc + Z.of_nat (List.length ps))%Z /\
  (c_water acc <= c_water (fold_left count_step ps acc))%Z.
Proof.
  revert acc. induction ps as [|p ps IH]; intros acc H; simpl; [split; lia|].
  destruct (count_step_table acc p (H p (or_introl eq_refl))) as [T W].
  destruct (IH (count_step acc p)) as [T' W']; [intros q Hq; apply H; right; exact Hq|].
  split; lia.
Qed.

(** C9: in every computed chart (ten bodies) each percentage is exactly ten
    times the number of bodies of its element, water included, and the
    remainder [waterPct] is never negative, so the clip is never taken. *)
Theorem calculateChart_elements_exact (env : Env) (date : Z) (lat lon : Q)
    (chart : CalculatedChart) :
  calculateChart env date lat lon = Ok chart ->
  let c := countElements (planets chart) in
  List.length (planets chart) = 10%nat /\
  fire (elements chart) = (10 * c_fire c)%Z /\ earth (elements chart) = (10 * c_earth c)%Z /\
  air (elements chart) = (10 * c_air c)%Z /\ water (elements chart) = (10 * c_water c)%Z /\
  (0 <= waterPct c 10)%Z.
Proof.
  intros H. cbv zeta.
  destruct (calculateChart_ok env date lat lon chart H) as (asc & M & El).
  destruct (mapM_ok _ _ _ M) as [L All].
  assert (Signs : forall p, In p (planets chart) -> exists z, In z ZODIAC_SIGNS /\ sign p = z_name z).
  { intros p Hp. destruct (All p Hp) as (b & _ & Pb).
    destruct (planet_of_ok env date asc b p Pb) as (_ & _ & _ & S). exact S. }
  destruct (countElements_total (planets chart) {| c_fire := 0; c_earth := 0; c_air := 0; c_water := 0 |} Signs)
    as [T W].
  fold (countElements (planets chart)) in T, W.
  rewrite L in T. cbn in T, W.
  rewrite L in El. change (Z.max (Z.of_nat (List.length BODIES)) 1) with 10%Z in El.
  destruct (countElements (planets chart)) as [f e a w] eqn:C.
  unfold counts_total in T. cbn [c_fire c_earth c_air c_water] in T, W.
  destruct (elementalBalance_ten f e a w W ltac:(lia)) as [Hw Hb].
  rewrite El, Hb. cbn. rewrite L. repeat split; try reflexivity. exact Hw.
Qed.

Lemma calculateChart_elements_exact_witness :
  exists chart,
    calculateChart sample_env 0 0 0 = Ok chart /\
    (let c := countElements (planets chart) in
     List.length (planets chart) = 10%nat /\
     fire (elements chart) = (10 * c_fire c)%Z /\ earth (elements chart) = (10 * c_earth c)%Z /\
     air (elements chart) = (10 * c_air c)%Z /\ water (elements chart) = (10 * c_water c)%Z /\
     (0 <= waterPct c 10)%Z).
Proof.
  destruct (calculateChart sample_env 0 0 0) as [chart|e] eqn:E.
  - exists chart. split; [reflexivity|].
    exact (calculateChart_elements_exact sample_env 0 0 0 chart E).
  - vm_compute in E. discriminate E.
Defined.

(** * Further properties of the engine, the wheel and the services *)

(** ** Remainders, floors and the zodiac table *)

(** For a non-negative dividend and a positive divisor the remainder is
    the floored one and lies in [0, m). *)
Lemma js_rem_pos (y m : Q) :
  0 <= y -> 0 < m ->
  js_rem y m == y - m * inject_Z (Qfloor (y / m)) /\ 0 <= js_rem y m /\ js_rem y m < m.
Proof.
  intros H0 Hm. unfold js_rem, Math_trunc.
  assert (Hq : 0 <= y / m) by (apply Qle_shift_div_l; lra).
  rewrite (proj2 (Qle_bool_iff 0 (y / m)) Hq).
  set (k := Qfloor (y / m)).
  pose proof (Qfloor_le (y / m)) as F1. pose proof (Qlt_floor (y / m)) as F2.
  fold k in F1, F2. rewrite inject_Z_plus in F2.
  replace (inject_Z 1) with 1 in F2 by reflexivity.
  assert (E : y / m * m == y) by (field; lra).
  assert (L : inject_Z k * m <= y / m * m) by (apply Qmult_le_r; [exact Hm | exact F1]).
  assert (U : y / m * m < (inject_Z k + 1) * m) by (apply Qmult_lt_r; [exact Hm | exact F2]).
  split; [reflexivity|]. nra.
Qed.

Lemma Qfloor_nonneg (q : Q) : 0 <= q -> (0 <= Qfloor q)%Z.
Proof. intros H. exact (Qfloor_resp_le 0 q H). Qed.

Lemma Qfloor_lt (q : Q) (n : Z) : q < inject_Z n -> (Qfloor q < n)%Z.
Proof. intros H. pose proof (Qfloor_le q). rewrite Zlt_Qlt. lra. Qed.

Lemma Qfloor_nonneg_inv (q : Q) : (0 <= Qfloor q)%Z -> 0 <= q.
Proof.
  intros H. pose proof (Qfloor_le q). rewrite Zle_Qle in H.
  change (inject_Z 0) with 0 in H. lra.
Qed.

(** When [getZodiacInfo] finds a sign, the normalized longitude was not
    negative, the sign is the table entry at [floor(normalized / 30)] and the
    degree within the sign is [normalized - 30 * index], in [0, 30). *)
Lemma getZodiacInfo_defined (x : Q) (z : ZodiacSign) :
  fst (getZodiacInfo x) = Some z ->
  0 <= normalize x /\
  nth_error ZODIAC_SIGNS (Z.to_nat (Qfloor (normalize x / 30))) = Some z /\
  (0 <= Qfloor (normalize x / 30) <= 11)%Z /\
  0 <= snd (getZodiacInfo x) /\ snd (getZodiacInfo x) < 30 /\
  normalize x == 30 * inject_Z (Qfloor (normalize x / 30)) + snd (getZodiacInfo x).
Proof.
  unfold getZodiacInfo, js_index, Math_floor. cbv zeta. cbn [fst snd].
  set (n := normalize x).
  destruct (Qfloor (n / 30) <? 0)%Z eqn:E; [discriminate|].
  intros G. apply Z.ltb_ge in E.
  assert (N0 : 0 <= n).
  { apply Qfloor_nonneg_inv in E.
    assert (n / 30 * 30 == n) by (field; discriminate).
    assert (0 * 30 <= n / 30 * 30) by (apply Qmult_le_r; [reflexivity | exact E]).
    lra. }
  assert (K : (Z.to_nat (Qfloor (n / 30)) < 12)%nat).
  { change 12%nat with (List.length ZODIAC_SIGNS). apply nth_error_Some. congruence. }
  destruct (js_rem_pos n 30 N0 ltac:(reflexivity)) as [R [R0 R1]].
  split; [exact N0 | split; [exact G | split; [lia | split; [exact R0 | split; [exact R1 | lra]]]]].
Qed.

Lemma getZodiacInfo_table_member (x : Q) (z : ZodiacSign) :
  fst (getZodiacInfo x) = Some z -> In z ZODIAC_SIGNS.
Proof.
  intros G. destruct (getZodiacInfo_defined x z G) as (_ & N & _). exact (nth_error_In _ _ N).
Qed.

(** ** The shape of a computed chart *)

Lemma mapM_Forall2 {A B} (f : A -> Result B) (l : list A) (l' : list B) :
  mapM f l = Ok l' -> Forall2 (fun x y => f x = Ok y) l l'.
Proof.
  revert l'. induction l as [|x xs IH]; intros l' H; simpl in H.
  - injection H as <-. constructor.
  - destruct (f x) as [y|e] eqn:Fx; simpl in H; [|discriminate H].
    destruct (mapM f xs) as [ys|e] eqn:Fxs; simpl in H; [|discriminate H].
    injection H as <-. constructor; [exact Fx | apply IH; reflexivity].
Qed.

Lemma calculateChart_parts (env : Env) (date : Z) (lat lon : Q) (chart : CalculatedChart) :
  calculateChart env date lat lon = Ok chart ->
  exists asc ascSign,
    calculateAscendant env date lat lon = Ok asc /\
    fst (getZodiacInfo asc) = Some ascSign /\
    mapM (planet_of env date (sign_index ascSign)) BODIES = Ok (planets chart) /\
    rising chart = {| r_sign := z_name ascSign; r_signSymbol := z_symbol ascSign; r_degree := asc |} /\
    bigThree chart =
      {| b_sun := sign_text (find (fun p => String.eqb (name p) "Sun") (planets chart));
         b_moon := sign_text (find (fun p => String.eqb (name p) "Moon") (planets chart));
         b_rising := z_name ascSign |}.
Proof.
  intros H. unfold calculateChart in H.
  destruct (calculateAscendant env date lat lon) as [asc|e] eqn:A; cbn [bind] in H; [|discriminate H].
  destruct (getZodiacInfo asc) as [[z|] r] eqn:G; cbn [bind deref] in H; [|discriminate H].
  destruct (mapM _ BODIES) as [ps|e] eqn:M; cbn [bind] in H; [|discriminate H].
  injection H as <-. exists asc, z. cbn [planets rising bigThree]. rewrite G.
  split; [reflexivity | split; [reflexivity | split; [exact M | split; reflexivity]]].
Qed.

Lemma planet_of_parts (env : Env) (date asc : Z) (b : string) (p : PlanetPosition) :
  planet_of env date asc b = Ok p ->
  exists z, fst (getZodiacInfo (ecliptic_elon env b date)) = Some z /\
    name p = b /\ degree p = ecliptic_elon env b date /\ sign p = z_name z /\
    relativeDegree p = snd (getZodiacInfo (ecliptic_elon env b date)) /\
    house p = house_of (sign_index z) asc.
Proof.
  unfold planet_of.
  destruct (getZodiacInfo (ecliptic_elon env b date)) as [[z|] r] eqn:G; simpl; [|discriminate].
  intros H. injection H as <-. exists z. simpl. repeat split; reflexivity.
Qed.

Lemma findIndex_In {A} (p : A -> bool) (l : list A) (x : A) :
  In x l -> p x = true -> (0 <= findIndex p l < Z.of_nat (List.length l))%Z.
Proof.
  induction l as [|y ys IH]; intros Hx Hp; [destruct Hx|]. cbn [findIndex List.length].
  destruct (p y) eqn:Py; [lia|].
  destruct Hx as [<- | Hx]; [congruence|].
  specialize (IH Hx Hp). destruct (findIndex p ys <? 0)%Z eqn:E; [apply Z.ltb_lt in E; lia | lia].
Qed.

Lemma sign_index_range (z : ZodiacSign) : In z ZODIAC_SIGNS -> (0 <= sign_index z <= 11)%Z.
Proof.
  intros H. unfold sign_index.
  pose proof (findIndex_In (fun z' => String.eqb (z_name z') (z_name z)) ZODIAC_SIGNS z H
                (String.eqb_refl _)) as R.
  change (Z.of_nat (List.length ZODIAC_SIGNS)) with 12%Z in R. lia.
Qed.

(** The percentages of a computed chart add up to 100. *)
Lemma calculateChart_elements_total (env : Env) (date : Z) (lat lon : Q) (chart : CalculatedChart) :
  calculateChart env date lat lon = Ok chart ->
  (fire (elements chart) + earth (elements chart) + air (elements chart) + water (elements chart) = 100)%Z.
Proof.
  intros H.
  destruct (calculateChart_ok env date lat lon chart H) as (asc & M & El).
  destruct (mapM_ok _ _ _ M) as [L All].
  assert (Signs : forall p, In p (planets chart) -> exists z, In z ZODIAC_SIGNS /\ sign p = z_name z).
  { intros p Hp. destruct (All p Hp) as (b & _ & Pb).
    destruct (planet_of_ok env date asc b p Pb) as (_ & _ & _ & S). exact S. }
  destruct (countElements_total (planets chart) {| c_fire := 0; c_earth := 0; c_air := 0; c_water := 0 |} Signs)
    as [T W].
  fold (countElements (planets chart)) in T, W.
  rewrite L in T. cbn in T, W.
  rewrite L in El. change (Z.max (Z.of_nat (List.length BODIES)) 1) with 10%Z in El.
  destruct (countElements (planets chart)) as [f e a w] eqn:C.
  unfold counts_total in T. cbn [c_fire c_earth c_air c_water] in T, W.
  destruct (elementalBalance_ten f e a w W ltac:(lia)) as [_ Hb].
  rewrite El, Hb. cbn [fire earth air water]. lia.
Qed.

(** ** Extra properties: the zodiac position of a longitude *)

(** For every longitude from -360 on, [getZodiacInfo] always finds a sign:
    the index [floor(normalized / 30)] lies in 0..11, the sign is the table
    entry at that index, and the returned degree within the sign lies in
    [0, 30) with [normalized = 30 * index + relativeDegree]. *)
Theorem getZodiacInfo_sign_found (x : Q) :
  -360 <= x ->
  let k := Qfloor (normalize x / 30) in
  (0 <= k <= 11)%Z /\
  fst (getZodiacInfo x) = nth_error ZODIAC_SIGNS (Z.to_nat k) /\
  fst (getZodiacInfo x) <> None /\
  0 <= snd (getZodiacInfo x) /\ snd (getZodiacInfo x) < 30 /\
  normalize x == 30 * inject_Z k + snd (getZodiacInfo x).
Proof.
  intros H. cbv zeta.
  destruct (normalize_range x H) as [N0 N1].
  assert (K0 : (0 <= Qfloor (normalize x / 30))%Z) by
    (apply Qfloor_nonneg; apply Qle_shift_div_l; [reflexivity | lra]).
  assert (K1 : (Qfloor (normalize x / 30) < 12)%Z).
  { apply Qfloor_lt. apply Qlt_shift_div_r; [reflexivity|].
    change (inject_Z 12) with 12. lra. }
  assert (Hs : fst (getZodiacInfo x) = nth_error ZODIAC_SIGNS (Z.to_nat (Qfloor (normalize x / 30)))).
  { unfold getZodiacInfo, js_index, Math_floor. cbv zeta. cbn [fst].
    assert (E : (Qfloor (normalize x / 30) <? 0)%Z = false) by (apply Z.ltb_ge; lia).
    rewrite E. reflexivity. }
  assert (Hn : fst (getZodiacInfo x) <> None).
  { rewrite Hs. apply nth_error_Some. change (List.length ZODIAC_SIGNS) with 12%nat. lia. }
  destruct (fst (getZodiacInfo x)) as [z|] eqn:G; [|congruence].
  destruct (getZodiacInfo_defined x z G) as (_ & _ & _ & R0 & R1 & R).
  split; [lia | split; [exact Hs | split; [exact Hn | split; [exact R0 | split; [exact R1 | exact R]]]]].
Qed.

Lemma getZodiacInfo_sign_found_witness :
  -360 <= -45 /\
  (let k := Qfloor (normalize (-45) / 30) in
   (0 <= k <= 11)%Z /\
   fst (getZodiacInfo (-45)) = nth_error ZODIAC_SIGNS (Z.to_nat k) /\
   fst (getZodiacInfo (-45)) <> None /\
   0 <= snd (getZodiacInfo (-45)) /\ snd (getZodiacInfo (-45)) < 30 /\
   normalize (-45) == 30 * inject_Z k + snd (getZodiacInfo (-45))).
Proof.
  assert (H : -360 <= -45) by (vm_compute; discriminate).
  split; [exact H | exact (getZodiacInfo_sign_found (-45) H)].
Defined.

(** ** Extra properties: the ascendant *)

(** When [Math.atan2] stays in its range [-pi, pi], the ascendant returned
    by [calculateAscendant] lies in [0, 360), so the second normalization in
    [getZodiacInfo(ascDegree)] does not move it. *)
Theorem calculateAscendant_range (env : Env) (date : Z) (lat lon asc : Q) :
  (forall y x, - Math_PI <= Math_atan2 env y x <= Math_PI) ->
  calculateAscendant env date lat lon = Ok asc ->
  0 <= asc /\ asc < 360 /\ normalize asc == asc.
Proof.
  intros Hat H. unfold calculateAscendant in H.
  destruct (new_Observer env lat lon 0) as [[]|e]; cbn [bind] in H; [|discriminate H].
  destruct (SiderealTime env date) as [g|e]; cbn [bind] in H; [|discriminate H].
  injection H as <-. unfold ascendant_of. cbv zeta.
  set (r := Math_atan2 env _ _).
  assert (Hr : - Math_PI <= r <= Math_PI) by apply Hat.
  assert (HP : 0 < Math_PI) by reflexivity.
  assert (HD : -180 <= r * 180 / Math_PI).
  { apply Qle_shift_div_l; [exact HP | lra]. }
  destruct (js_rem_360_bounds (r * 180 / Math_PI + 360) ltac:(lra)) as [B0 B1].
  split; [exact B0 | split; [exact B1 | apply normalize_fixed; assumption]].
Qed.

Lemma calculateAscendant_range_witness :
  exists asc,
    ((forall y x, - Math_PI <= Math_atan2 sample_env y x <= Math_PI) /\
     calculateAscendant sample_env 0 0 0 = Ok asc) /\
    (0 <= asc /\ asc < 360 /\ normalize asc == asc).
Proof.
  assert (Hat : forall y x, - Math_PI <= Math_atan2 sample_env y x <= Math_PI) by
    (intros y x; split; vm_compute; discriminate).
  destruct (calculateAscendant sample_env 0 0 0) as [asc|e] eqn:E.
  - exists asc. split; [split; [exact Hat | reflexivity]|].
    exact (calculateAscendant_range sample_env 0 0 0 asc Hat E).
  - vm_compute in E. discriminate E.
Defined.

(** ** Extra properties: the bodies of a computed chart *)

(** A computed chart lists the ten bodies in the order of [BODIES]; the Sun
    and the Moon entries of the big three are the signs of its first two
    bodies and the rising entry is the rising sign, so none of the three is
    ever the text "undefined": each is the name of a sign of the table. *)
Theorem calculateChart_bodies_bigThree (env : Env) (date : Z) (lat lon : Q)
    (chart : CalculatedChart) :
  calculateChart env date lat lon = Ok chart ->
  map name (planets chart) = BODIES /\
  (exists sun moon rest, planets chart = sun :: moon :: rest /\
     b_sun (bigThree chart) = sign sun /\ b_moon (bigThree chart) = sign moon) /\
  b_rising (bigThree chart) = r_sign (rising chart) /\
  In (b_sun (bigThree chart)) (map z_name ZODIAC_SIGNS) /\
  In (b_moon (bigThree chart)) (map z_name ZODIAC_SIGNS) /\
  In (b_rising (bigThree chart)) (map z_name ZODIAC_SIGNS).
Proof.
  intros H.
  destruct (calculateChart_parts env date lat lon chart H) as (asc & z & _ & G & M & Ri & B).
  assert (Names : map name (planets chart) = BODIES).
  { apply mapM_Forall2 in M. clear -M. induction M as [|b p bs ps Pb _ IH]; [reflexivity|].
    destruct (planet_of_parts _ _ _ _ _ Pb) as (z' & _ & Nm & _). simpl. rewrite Nm, IH. reflexivity. }
  assert (InSign : forall p, In p (planets chart) -> In (sign p) (map z_name ZODIAC_SIGNS)).
  { intros p Hp. destruct (mapM_ok _ _ _ M) as [_ All]. destruct (All p Hp) as (b & _ & Pb).
    destruct (planet_of_parts _ _ _ _ _ Pb) as (z' & G' & _ & _ & Sg & _).
    rewrite Sg. apply in_map. exact (getZodiacInfo_table_member _ _ G'). }
  destruct (planets chart) as [|sun [|moon rest]] eqn:P; try discriminate Names.
  pose proof Names as N2. injection N2 as Ns Nm _.
  assert (Bs : b_sun (bigThree chart) = sign sun) by
    (rewrite B; cbn [b_sun find]; rewrite Ns; reflexivity).
  assert (Bm : b_moon (bigThree chart) = sign moon) by
    (rewrite B; cbn [b_moon find]; rewrite Ns, Nm; reflexivity).
  split; [exact Names|].
  split; [exists sun, moon, rest; split; [reflexivity | split; assumption]|].
  split; [rewrite B, Ri; reflexivity|].
  split; [rewrite Bs; apply InSign; left; reflexivity|].
  split; [rewrite Bm; apply InSign; right; left; reflexivity|].
  rewrite B. cbn [b_rising]. apply in_map. exact (getZodiacInfo_table_member _ _ G).
Qed.

Lemma calculateChart_bodies_bigThree_witness :
  exists chart,
    calculateChart sample_env 0 0 0 = Ok chart /\
    (map name (planets chart) = BODIES /\
     (exists sun moon rest, planets chart = sun :: moon :: rest /\
        b_sun (bigThree chart) = sign sun /\ b_moon (bigThree chart) = sign moon) /\
     b_rising (bigThree chart) = r_sign (rising chart) /\
     In (b_sun (bigThree chart)) (map z_name ZODIAC_SIGNS) /\
     In (b_moon (bigThree chart)) (map z_name ZODIAC_SIGNS) /\
     In (b_rising (bigThree chart)) (map z_name ZODIAC_SIGNS)).
Proof.
  destruct (calculateChart sample_env 0 0 0) as [chart|e] eqn:E.
  - exists chart. split; [reflexivity|].
    exact (calculateChart_bodies_bigThree sample_env 0 0 0 chart E).
  - vm_compute in E. discriminate E.
Defined.

(** Every body of a computed chart is in a house from 1 to 12: the
    whole-sign count from the rising sign's table index to its own sign's
    index, plus one; a body in the rising sign is in house 1. *)
Theorem calculateChart_houses (env : Env) (date : Z) (lat lon : Q)
    (chart : CalculatedChart) (p : PlanetPosition) :
  calculateChart env date lat lon = Ok chart -> In p (planets chart) ->
  (1 <= house p <= 12)%Z /\
  house p = house_of (findIndex (fun z => String.eqb (z_name z) (sign p)) ZODIAC_SIGNS)
                     (findIndex (fun z => String.eqb (z_name z) (r_sign (rising chart))) ZODIAC_SIGNS) /\
  (sign p = r_sign (rising chart) -> house p = 1%Z).
Proof.
  intros H Hp.
  destruct (calculateChart_parts env date lat lon chart H) as (asc & za & _ & G & M & Ri & _).
  destruct (mapM_ok _ _ _ M) as [_ All]. destruct (All p Hp) as (b & _ & Pb).
  destruct (planet_of_parts _ _ _ _ _ Pb) as (z & Gz & _ & _ & Sg & _ & Hh).
  pose proof (sign_index_range z (getZodiacInfo_table_member _ _ Gz)) as Rz.
  pose proof (sign_index_range za (getZodiacInfo_table_member _ _ G)) as Ra.
  assert (Ef : house p = house_of (sign_index z) (sign_index za)) by exact Hh.
  split; [| split].
  - rewrite Ef. unfold house_of. rem12 (sign_index z - sign_index za + 12)%Z. lia.
  - rewrite Ef, Ri, Sg. reflexivity.
  - intros Es. rewrite Ri in Es. cbn [r_sign] in Es. rewrite Sg in Es.
    assert (Ez : sign_index z = sign_index za) by (unfold sign_index; rewrite Es; reflexivity).
    rewrite Ef, Ez. unfold house_of.
    replace (sign_index za - sign_index za + 12)%Z with 12%Z by lia. reflexivity.
Qed.

Lemma calculateChart_houses_witness :
  exists chart p,
    (calculateChart sample_env 0 0 0 = Ok chart /\ In p (planets chart)) /\
    ((1 <= house p <= 12)%Z /\
     house p = house_of (findIndex (fun z => String.eqb (z_name z) (sign p)) ZODIAC_SIGNS)
                        (findIndex (fun z => String.eqb (z_name z) (r_sign (rising chart))) ZODIAC_SIGNS) /\
     (sign p = r_sign (rising chart) -> house p = 1%Z)).
Proof.
  destruct (calculateChart sample_env 0 0 0) as [chart|e] eqn:E.
  - assert (Hp : In (nth 0 (planets chart) (position EmptyString 0)) (planets chart)).
    { vm_compute in E. injection E as <-. simpl. tauto. }
    exists chart, (nth 0 (planets chart) (position EmptyString 0)).
    split; [split; [reflexivity | exact Hp]|].
    exact (calculateChart_houses sample_env 0 0 0 chart _ E Hp).
  - vm_compute in E. discriminate E.
Defined.

(** Whatever longitudes the ephemeris returns, in a computed chart every
    body's degree within its sign lies in [0, 30), its normalized longitude
    lies in [0, 360), and its sign is the table entry at
    [floor(normalized / 30)], with [normalized = 30 * index + relativeDegree]. *)
Theorem calculateChart_sign_degrees (env : Env) (date : Z) (lat lon : Q)
    (chart : CalculatedChart) (p : PlanetPosition) :
  calculateChart env date lat lon = Ok chart -> In p (planets chart) ->
  0 <= relativeDegree p /\ relativeDegree p < 30 /\
  0 <= normalize (degree p) /\ normalize (degree p) < 360 /\
  exists z, nth_error ZODIAC_SIGNS (Z.to_nat (Qfloor (normalize (degree p) / 30))) = Some z /\
    sign p = z_name z /\
    normalize (degree p) == 30 * inject_Z (Qfloor (normalize (degree p) / 30)) + relativeDegree p.
Proof.
  intros H Hp.
  destruct (calculateChart_parts env date lat lon chart H) as (asc & za & _ & _ & M & _ & _).
  destruct (mapM_ok _ _ _ M) as [_ All]. destruct (All p Hp) as (b & _ & Pb).
  destruct (planet_of_parts _ _ _ _ _ Pb) as (z & Gz & _ & Dg & Sg & Rd & _).
  destruct (getZodiacInfo_defined _ z Gz) as (N0 & Nz & K & R0 & R1 & R).
  rewrite <- Rd in R0, R1, R. rewrite <- Dg in Nz, K, R, N0.
  assert (K11 : inject_Z (Qfloor (normalize (degree p) / 30)) <= 11).
  { change 11 with (inject_Z 11). rewrite <- Zle_Qle. lia. }
  split; [exact R0 | split; [exact R1 | split; [exact N0 | split; [lra|]]]].
  exists z. split; [exact Nz | split; [exact Sg | exact R]].
Qed.

Lemma calculateChart_sign_degrees_witness :
  exists chart p,
    (calculateChart sample_env 0 0 0 = Ok chart /\ In p (planets chart)) /\
    (0 <= relativeDegree p /\ relativeDegree p < 30 /\
     0 <= normalize (degree p) /\ normalize (degree p) < 360 /\
     exists z, nth_error ZODIAC_SIGNS (Z.to_nat (Qfloor (normalize (degree p) / 30))) = Some z /\
       sign p = z_name z /\
       normalize (degree p) == 30 * inject_Z (Qfloor (normalize (degree p) / 30)) + relativeDegree p).
Proof.
  destruct (calculateChart sample_env 0 0 0) as [chart|e] eqn:E.
  - assert (Hp : In (nth 2 (planets chart) (position EmptyString 0)) (planets chart)).
    { vm_compute in E. injection E as <-. simpl. tauto. }
    exists chart, (nth 2 (planets chart) (position EmptyString 0)).
    split; [split; [reflexivity | exact Hp]|].
    exact (calculateChart_sign_degrees sample_env 0 0 0 chart _ E Hp).
  - vm_compute in E. discriminate E.
Defined.

(** ** Extra properties: the normalized elements of the analysis panel *)

(** The panel shows the percentages of a computed chart unchanged: they
    sum to 100, above the threshold 20 under which it rescales. *)
Theorem getNormalizedElements_chart (env : Env) (date : Z) (lat lon : Q)
    (chart : CalculatedChart) :
  calculateChart env date lat lon = Ok chart ->
  getNormalizedElements (elements chart) = elements chart.
Proof.
  intros H. pose proof (calculateChart_elements_total env date lat lon chart H) as T.
  destruct (elements chart) as [f e a w]. cbn [fire earth air water] in T.
  unfold getNormalizedElements. cbn [fire earth air water]. rewrite T. reflexivity.
Qed.

Lemma getNormalizedElements_chart_witness :
  exists chart,
    calculateChart sample_env 0 0 0 = Ok chart /\
    getNormalizedElements (elements chart) = elements chart.
Proof.
  destruct (calculateChart sample_env 0 0 0) as [chart|e] eqn:E.
  - exists chart. split; [reflexivity|].
    exact (getNormalizedElements_chart sample_env 0 0 0 chart E).
  - vm_compute in E. discriminate E.
Defined.

Lemma percentage_bounds (c t : Z) :
  inject_Z c / inject_Z t * 100 - (1 # 2) < inject_Z (percentage c t) /\
  inject_Z (percentage c t) <= inject_Z c / inject_Z t * 100 + (1 # 2).
Proof.
  unfold percentage, Math_round.
  pose proof (Qfloor_le (inject_Z c / inject_Z t * 100 + (1 # 2))) as F1.
  pose proof (Qlt_floor (inject_Z c / inject_Z t * 100 + (1 # 2))) as F2.
  rewrite inject_Z_plus in F2. change (inject_Z 1) with 1 in F2. lra.
Qed.

Lemma percentage_0_100 (c t : Z) :
  (0 <= c)%Z -> (c <= t)%Z -> (0 < t)%Z -> (0 <= percentage c t <= 100)%Z.
Proof.
  intros H0 H1 Ht.
  destruct (percentage_bounds c t) as [B0 B1].
  assert (Tq : 0 < inject_Z t) by (change 0 with (inject_Z 0); rewrite <- Zlt_Qlt; exact Ht).
  assert (X0 : 0 <= inject_Z c / inject_Z t).
  { apply Qle_shift_div_l; [exact Tq|]. change 0 with (inject_Z 0).
    rewrite Qmult_0_l. change 0 with (inject_Z 0). rewrite <- Zle_Qle. exact H0. }
  assert (X1 : inject_Z c / inject_Z t <= 1).
  { apply Qle_shift_div_r; [exact Tq|]. rewrite Qmult_1_l. rewrite <- Zle_Qle. exact H1. }
  split.
  - assert (A : (-1 < percentage c t)%Z) by
      (rewrite Zlt_Qlt; change (inject_Z (-1)) with (-1); lra). lia.
  - assert (A : (percentage c t < 101)%Z) by
      (rewrite Zlt_Qlt; change (inject_Z 101) with 101; lra). lia.
Qed.

(** For raw element counts (non-negative, total from 1 to 20) the panel
    rescales each to [Math.round(x / total * 100)]: every result lies in
    [0, 100], and the four rounded values can miss 100, summing to anything
    from 99 to 102. *)
Theorem getNormalizedElements_rescale (el : ElementalBalance) :
  (0 <= fire el)%Z -> (0 <= earth el)%Z -> (0 <= air el)%Z -> (0 <= water el)%Z ->
  (0 < fire el + earth el + air el + water el <= 20)%Z ->
  let n := getNormalizedElements el in
  (0 <= fire n <= 100)%Z /\ (0 <= earth n <= 100)%Z /\
  (0 <= air n <= 100)%Z /\ (0 <= water n <= 100)%Z /\
  (99 <= fire n + earth n + air n + water n <= 102)%Z.
Proof.
  destruct el as [f e a w]. cbn [fire earth air water]. intros Hf He Ha Hw Ht. cbv zeta.
  unfold getNormalizedElements. cbn [fire earth air water].
  set (t := (f + e + a + w)%Z).
  assert (E1 : Z.eqb t 0 = false) by (apply Z.eqb_neq; unfold t; lia).
  assert (E2 : (20 <? t)%Z = false) by (apply Z.ltb_ge; unfold t; lia).
  rewrite E1, E2. cbn [fire earth air water].
  split; [apply percentage_0_100; unfold t; lia|].
  split; [apply percentage_0_100; unfold t; lia|].
  split; [apply percentage_0_100; unfold t; lia|].
  split; [apply percentage_0_100; unfold t; lia|].
  destruct (percentage_bounds f t) as [F0 F1].
  destruct (percentage_bounds e t) as [G0 G1].
  destruct (percentage_bounds a t) as [A0 A1].
  destruct (percentage_bounds w t) as [W0 W1].
  assert (Tq : inject_Z t == inject_Z f + inject_Z e + inject_Z a + inject_Z w) by
    (unfold t; rewrite !inject_Z_plus; reflexivity).
  assert (Tp : 0 < inject_Z t) by (change 0 with (inject_Z 0); rewrite <- Zlt_Qlt; unfold t; lia).
  assert (S : inject_Z f / inject_Z t * 100 + inject_Z e / inject_Z t * 100 +
              inject_Z a / inject_Z t * 100 + inject_Z w / inject_Z t * 100 == 100).
  { assert (Q1 : inject_Z f / inject_Z t * 100 + inject_Z e / inject_Z t * 100 +
                 inject_Z a / inject_Z t * 100 + inject_Z w / inject_Z t * 100 ==
                 (inject_Z f + inject_Z e + inject_Z a + inject_Z w) / inject_Z t * 100)
      by (field; lra).
    rewrite Q1, <- Tq. field. lra. }
  set (s := (percentage f t + percentage e t + percentage a t + percentage w t)%Z).
  assert (Sq : inject_Z s == inject_Z (percentage f t) + inject_Z (percentage e t) +
                             inject_Z (percentage a t) + inject_Z (percentage w t)) by
    (unfold s; rewrite !inject_Z_plus; reflexivity).
  split.
  - assert (L : (98 < s)%Z) by (rewrite Zlt_Qlt; change (inject_Z 98) with 98; lra). lia.
  - assert (U : (s <= 102)%Z) by (rewrite Zle_Qle; change (inject_Z 102) with 102; lra). exact U.
Qed.

Lemma getNormalizedElements_rescale_witness :
  let el := {| fire := 1; earth := 1; air := 3; water := 3 |} in
  ((0 <= fire el)%Z /\ (0 <= earth el)%Z /\ (0 <= air el)%Z /\ (0 <= water el)%Z /\
   (0 < fire el + earth el + air el + water el <= 20)%Z) /\
  (let n := getNormalizedElements el in
   (0 <= fire n <= 100)%Z /\ (0 <= earth n <= 100)%Z /\
   (0 <= air n <= 100)%Z /\ (0 <= water n <= 100)%Z /\
   (99 <= fire n + earth n + air n + water n <= 102)%Z).
Proof.
  cbv zeta. split; [cbn; lia|].
  apply (getNormalizedElements_rescale {| fire := 1; earth := 1; air := 3; water := 3 |}); cbn; lia.
Defined.

(** ** Extra properties: the aspect records *)

Lemma aspect_type_cases (ang : Q) :
  aspect_type ang = EmptyString \/
  (aspect_type ang = "Conjunction"%string /\ Qabs (ang - 0) <= 6) \/
  (aspect_type ang = "Sextile"%string /\ Qabs (ang - 60) <= 6 * 0.7) \/
  (aspect_type ang = "Square"%string /\ Qabs (ang - 90) <= 6) \/
  (aspect_type ang = "Trine"%string /\ Qabs (ang - 120) <= 6) \/
  (aspect_type ang = "Opposition"%string /\ Qabs (ang - 180) <= 6).
Proof.
  unfold aspect_type, ORB.
  repeat match goal with
         | |- context [if Qle_bool ?x ?y then _ else _] => destruct (Qle_bool x y) eqn:?
         end;
  repeat (first [ left; reflexivity
                | left; split; [reflexivity | apply Qle_bool_iff; assumption]
                | split; [reflexivity | apply Qle_bool_iff; assumption]
                | right ]).
Qed.

Lemma pair_aspect_record (a b : PlanetPosition) (r : SynastryAspect) :
  In r (pair_aspect a b) ->
  planetA r = name a /\ planetB r = name b /\ 0 <= orb r /\
  ((aspectType r = "Conjunction" /\ orb r <= 6) \/ (aspectType r = "Sextile" /\ orb r <= 4.2) \/
   (aspectType r = "Square" /\ orb r <= 6) \/ (aspectType r = "Trine" /\ orb r <= 6) \/
   (aspectType r = "Opposition" /\ orb r <= 6))%string.
Proof.
  unfold pair_aspect. cbv zeta. set (ang := shortest_angle _ _).
  destruct (aspect_type_cases ang) as [E | [[E B] | [[E B] | [[E B] | [[E B] | [E B]]]]]];
    rewrite E.
  - intros [].
  - intros [<- | []]. cbn [planetA planetB aspectType orb].
    change (exact_angle "Conjunction"%string) with 0.
    split; [reflexivity | split; [reflexivity | split; [apply Qabs_nonneg|]]].
    left. split; [reflexivity | exact B].
  - intros [<- | []]. cbn [planetA planetB aspectType orb].
    change (exact_angle "Sextile"%string) with 60.
    split; [reflexivity | split; [reflexivity | split; [apply Qabs_nonneg|]]].
    right; left. split; [reflexivity | lra].
  - intros [<- | []]. cbn [planetA planetB aspectType orb].
    change (exact_angle "Square"%string) with 90.
    split; [reflexivity | split; [reflexivity | split; [apply Qabs_nonneg|]]].
    right; right; left. split; [reflexivity | exact B].
  - intros [<- | []]. cbn [planetA planetB aspectType orb].
    change (exact_angle "Trine"%string) with 120.
    split; [reflexivity | split; [reflexivity | split; [apply Qabs_nonneg|]]].
    right; right; right; left. split; [reflexivity | exact B].
  - intros [<- | []]. cbn [planetA planetB aspectType orb].
    change (exact_angle "Opposition"%string) with 180.
    split; [reflexivity | split; [reflexivity | split; [apply Qabs_nonneg|]]].
    right; right; right; right. split; [reflexivity | exact B].
Qed.

Lemma calculateAspects_from_pairs (p1 p2 : CalculatedChart) (r : SynastryAspect) :
  In r (calculateAspects p1 p2) ->
  exists a b, In a (planets p1) /\ In b (planets p2) /\ In r (pair_aspect a b).
Proof.
  unfold calculateAspects. intros H.
  destruct (js_sort_props orb (collectAspects p1 p2)) as [_ [Hp _]].
  assert (Hc : In r (collectAspects p1 p2)).
  { apply (Permutation_in r Hp). rewrite <- (firstn_skipn 8 (js_sort _ _)).
    apply in_or_app. left. exact H. }
  unfold collectAspects in Hc.
  apply in_flat_map in Hc as (a & Ha & Hc). apply in_flat_map in Hc as (b & Hb & Hr).
  exists a, b. split; [exact Ha | split; [exact Hb | exact Hr]].
Qed.

(** Every record [calculateAspects] returns joins a body of the first chart
    (planetA) to a body of the second (planetB), is one of the five aspects
    and has an orb from 0 up to its band's threshold: 6 degrees, 4.2 for a
    sextile. *)
Theorem calculateAspects_records (p1 p2 : CalculatedChart) (r : SynastryAspect) :
  In r (calculateAspects p1 p2) ->
  In (planetA r) (map name (planets p1)) /\ In (planetB r) (map name (planets p2)) /\
  0 <= orb r /\
  ((aspectType r = "Conjunction" /\ orb r <= 6) \/ (aspectType r = "Sextile" /\ orb r <= 4.2) \/
   (aspectType r = "Square" /\ orb r <= 6) \/ (aspectType r = "Trine" /\ orb r <= 6) \/
   (aspectType r = "Opposition" /\ orb r <= 6))%string.
Proof.
  intros H. destruct (calculateAspects_from_pairs p1 p2 r H) as (a & b & Ha & Hb & Hr).
  destruct (pair_aspect_record a b r Hr) as (EA & EB & O & T).
  split; [rewrite EA; apply in_map; exact Ha|].
  split; [rewrite EB; apply in_map; exact Hb|].
  split; [exact O | exact T].
Qed.

Lemma calculateAspects_records_witness :
  let c1 := sample_chart [position "Sun" 0]%string in
  let c2 := sample_chart [position "Moon" 3]%string in
  let r := hd (sample_aspect_default) (calculateAspects c1 c2) in
  In r (calculateAspects c1 c2) /\
  (In (planetA r) (map name (planets c1)) /\ In (planetB r) (map name (planets c2)) /\
   0 <= orb r /\
   ((aspectType r = "Conjunction" /\ orb r <= 6) \/ (aspectType r = "Sextile" /\ orb r <= 4.2) \/
    (aspectType r = "Square" /\ orb r <= 6) \/ (aspectType r = "Trine" /\ orb r <= 6) \/
    (aspectType r = "Opposition" /\ orb r <= 6))%string).
Proof.
  cbv zeta.
  assert (H : In (hd sample_aspect_default (calculateAspects (sample_chart [position "Sun" 0]%string)
                     (sample_chart [position "Moon" 3]%string)))
                 (calculateAspects (sample_chart [position "Sun" 0]%string)
                     (sample_chart [position "Moon" 3]%string))).
  { vm_compute. left. reflexivity. }
  split; [exact H | exact (calculateAspects_records _ _ _ H)].
Defined.

Lemma Qabs_minus_sym (a b : Q) : Qabs (a - b) = Qabs (b - a).
Proof.
  destruct a as [na da], b as [nb db]. unfold Qminus, Qplus, Qopp, Qabs. cbn [Qnum Qden].
  f_equal; [| apply Pos.mul_comm].
  rewrite <- Z.abs_opp. f_equal. ring.
Qed.

Lemma shortest_angle_sym (a b : Q) : shortest_angle a b = shortest_angle b a.
Proof. unfold shortest_angle. rewrite Qabs_minus_sym. reflexivity. Qed.

Lemma map_flat_map_perm {A B C} (f : B -> C) (g : A -> list B) (l : list A) :
  map f (flat_map g l) = flat_map (fun x => map f (g x)) l.
Proof.
  induction l as [|x l IH]; [reflexivity|]. cbn [flat_map]. rewrite map_app, IH. reflexivity.
Qed.

Lemma flat_map_app_distr {A C} (f h : A -> list C) (l : list A) :
  Permutation (flat_map (fun b => f b ++ h b) l) (flat_map f l ++ flat_map h l).
Proof.
  induction l as [|b l IH]; [reflexivity|]. cbn [flat_map].
  rewrite IH, <- !app_assoc. apply Permutation_app_head.
  rewrite !app_assoc. apply Permutation_app_tail. apply Permutation_app_comm.
Qed.

Lemma flat_map_interchange {A B C} (g : A -> B -> list C) (l1 : list A) (l2 : list B) :
  Permutation (flat_map (fun a => flat_map (fun b => g a b) l2) l1)
              (flat_map (fun b => flat_map (fun a => g a b) l1) l2).
Proof.
  induction l1 as [|a l1 IH]; cbn [flat_map].
  - induction l2 as [|b l2 IH2]; [reflexivity | exact IH2].
  - rewrite IH. symmetry. apply (flat_map_app_distr (fun b => g a b)).
Qed.

(** The classification does not depend on the order of the two bodies:
    comparing [b] with [a] gives the record of [a] with [b], its bodies
    swapped, with the same aspect and orb; so swapping the two charts
    gives the same enumerated aspects, up to order, with the roles of the
    people swapped. *)
Theorem aspects_swap_charts (a b : PlanetPosition) (c1 c2 : CalculatedChart) :
  pair_aspect b a =
    map (fun r => {| planetA := planetB r; planetB := planetA r; aspectType := aspectType r;
                     description := description r; orb := orb r |}) (pair_aspect a b) /\
  Permutation (collectAspects c2 c1)
    (map (fun r => {| planetA := planetB r; planetB := planetA r; aspectType := aspectType r;
                      description := description r; orb := orb r |}) (collectAspects c1 c2)).
Proof.
  assert (Sw : forall a b : PlanetPosition, pair_aspect b a =
    map (fun r => {| planetA := planetB r; planetB := planetA r; aspectType := aspectType r;
                     description := description r; orb := orb r |}) (pair_aspect a b)).
  { intros x y. unfold pair_aspect. rewrite (shortest_angle_sym (degree y) (degree x)).
    destruct (String.eqb _ EmptyString); reflexivity. }
  split; [apply Sw|].
  unfold collectAspects.
  transitivity (flat_map (fun x => flat_map (fun y => pair_aspect y x) (planets c2)) (planets c1)).
  - apply (flat_map_interchange (fun a b => pair_aspect a b) (planets c2) (planets c1)).
  - rewrite map_flat_map_perm. apply Permutation_refl'. apply flat_map_ext. intros x.
    rewrite map_flat_map_perm. apply flat_map_ext. intros y. apply Sw.
Qed.

(** ** Extra properties: the layout resolver *)

Lemma assign_entries (sorted : list PlanetPosition) (minDeg : Q) rest i acc :
  map entry (assign sorted minDeg rest i acc) = map entry acc ++ rest.
Proof.
  revert i acc. induction rest as [|p ps IH]; intros i acc; cbn [assign].
  - rewrite app_nil_r. reflexivity.
  - rewrite IH, map_app, <- app_assoc. reflexivity.
Qed.

Lemma wrap_patch_entries (minDeg : Q) (w : list LayoutEntry) :
  map entry (wrap_patch minDeg w) = map entry w.
Proof.
  destruct w as [|e0 [|x xs]]; try reflexivity. unfold wrap_patch.
  destruct (Qltb _ minDeg && Z.eqb _ _); reflexivity.
Qed.

Lemma wrap_patch_tail (minDeg : Q) (w : list LayoutEntry) (k : nat) :
  (1 <= k)%nat -> nth_error (wrap_patch minDeg w) k = nth_error w k.
Proof.
  intros Hk. destruct w as [|e0 [|x xs]]; try reflexivity. unfold wrap_patch.
  destruct (Qltb _ minDeg && Z.eqb _ _); [|reflexivity].
  destruct k as [|k]; [lia | reflexivity].
Qed.

(** The resolver returns the entities sorted by longitude: each input
    entity exactly once (a permutation of the input), in ascending
    order of degree. *)
Theorem resolveCollisions_sorted_permutation (planets : list PlanetPosition) (minDeg : Q) :
  Permutation (map entry (resolveCollisions planets minDeg)) planets /\
  Sorted (fun a b => degree a <= degree b) (map entry (resolveCollisions planets minDeg)) /\
  List.length (resolveCollisions planets minDeg) = List.length planets.
Proof.
  unfold resolveCollisions. rewrite wrap_patch_entries, assign_entries. cbn [map app].
  destruct (js_sort_props degree planets) as [Hs [Hp _]].
  split; [exact Hp | split; [exact Hs|]].
  rewrite <- (length_map entry), wrap_patch_entries, assign_entries. cbn [map app].
  apply Permutation_length. exact Hp.
Qed.


Lemma assign_nth (sorted : list PlanetPosition) (minDeg : Q) rest i acc :
  List.length acc = i ->
  firstn i (assign sorted minDeg rest i acc) = acc /\
  List.length (assign sorted minDeg rest i acc) = (i + List.length rest)%nat /\
  (forall k p, nth_error rest k = Some p ->
    nth_error (assign sorted minDeg rest i acc) (i + k) =
      Some {| entry := p;
              track := first_free (lookback (firstn (i + k) (assign sorted minDeg rest i acc))
                                            (i + k) (degree p) minDeg);
              isIsolated := isolation sorted p (i + k) |}).
Proof.
  revert i acc. induction rest as [|q ps IH]; intros i acc Hl.
  - cbn [assign]. split; [rewrite firstn_all2; [reflexivity | lia]|].
    split; [cbn [List.length]; lia|]. intros k p Hk. rewrite nth_error_nil in Hk. discriminate.
  - cbn [assign].
    set (e := {| entry := q; track := first_free (lookback acc i (degree q) minDeg);
                 isIsolated := isolation sorted q i |}).
    set (w := assign sorted minDeg ps (S i) (acc ++ [e])).
    destruct (IH (S i) (acc ++ [e])) as [F [L N]]; [rewrite length_app; cbn [List.length]; lia|].
    fold w in F, L, N.
    assert (Fi : firstn i w = acc).
    { replace (firstn i w) with (firstn i (firstn (S i) w)) by
        (rewrite firstn_firstn; f_equal; lia).
      rewrite F, firstn_app, Hl, Nat.sub_diag, firstn_all2 by lia.
      cbn [firstn]. apply app_nil_r. }
    split; [exact Fi|]. split; [rewrite L; cbn [List.length]; lia|].
    intros k p Hk. destruct k as [|k].
    + cbn [nth_error] in Hk. injection Hk as <-. rewrite Nat.add_0_r, Fi.
      rewrite <- (firstn_skipn (S i) w), F, <- app_assoc, nth_error_app2 by lia.
      rewrite Hl, Nat.sub_diag. reflexivity.
    + cbn [nth_error] in Hk. specialize (N k p Hk). rewrite Nat.add_succ_r. exact N.
Qed.

Lemma lookback_fold_mono (w : list LayoutEntry) (i : nat) (deg minDeg : Q) js acc x :
  In x acc -> In x (fold_left (fun usedTracks j =>
      if (j <=? i)%nat then
        match nth_error w (i - j) with
        | Some prevProcessed =>
            if Qltb (getDist deg (degree (entry prevProcessed))) minDeg
            then track prevProcessed :: usedTracks else usedTracks
        | None => usedTracks
        end
      else usedTracks) js acc).
Proof.
  revert acc. induction js as [|j js IH]; intros acc H; cbn [fold_left]; [exact H|].
  apply IH. destruct (j <=? i)%nat; [destruct (nth_error w (i - j)) as [p|];
    [destruct (Qltb _ minDeg)|] |]; try exact H; right; exact H.
Qed.

Lemma lookback_fold_hit (w : list LayoutEntry) (i : nat) (deg minDeg : Q) js acc j e :
  In j js -> (j <= i)%nat -> nth_error w (i - j) = Some e ->
  getDist deg (degree (entry e)) < minDeg ->
  In (track e) (fold_left (fun usedTracks j =>
      if (j <=? i)%nat then
        match nth_error w (i - j) with
        | Some prevProcessed =>
            if Qltb (getDist deg (degree (entry prevProcessed))) minDeg
            then track prevProcessed :: usedTracks else usedTracks
        | None => usedTracks
        end
      else usedTracks) js acc).
Proof.
  revert acc. induction js as [|j' js IH]; intros acc Hj Hji He Hd; [destruct Hj|].
  cbn [fold_left]. destruct Hj as [<- | Hj]; [|apply IH; assumption].
  apply lookback_fold_mono. cbv beta.
  rewrite (proj2 (Nat.leb_le j' i) Hji), He, (proj2 (Qltb_iff _ _) Hd). left. reflexivity.
Qed.

(** An entry closer than [minDeg] among the four before entry [i] marks
    its track as used. *)
Lemma lookback_In (w : list LayoutEntry) (i j : nat) (deg minDeg : Q) (e : LayoutEntry) :
  (1 <= j <= 4)%nat -> (j <= i)%nat -> nth_error w (i - j) = Some e ->
  getDist deg (degree (entry e)) < minDeg -> In (track e) (lookback w i deg minDeg).
Proof.
  intros Hj Hji He Hd. unfold lookback.
  apply (lookback_fold_hit w i deg minDeg _ [] j e); try assumption.
  destruct Hj as [H1 H4].
  destruct j as [|[|[|[|[|j]]]]]; cbn; try lia; tauto.
Qed.

(** Two entities at most four places apart in longitude order, neither of
    them the first, that are closer than [minDeg] (on the circle) never
    share a track. *)
Theorem resolveCollisions_near_neighbours (planets : list PlanetPosition) (minDeg : Q)
    (i j : nat) (ei ej : LayoutEntry) :
  (1 <= j)%nat -> (j < i)%nat -> (i <= j + 4)%nat ->
  nth_error (resolveCollisions planets minDeg) i = Some ei ->
  nth_error (resolveCollisions planets minDeg) j = Some ej ->
  getDist (degree (entry ei)) (degree (entry ej)) < minDeg ->
  track ei <> track ej.
Proof.
  intros H1 H2 H3 Hi Hj Hd. unfold resolveCollisions in Hi, Hj.
  set (sorted := js_sort (fun a b => degree a - degree b) planets) in Hi, Hj.
  rewrite wrap_patch_tail in Hi, Hj by lia.
  destruct (assign_nth sorted minDeg sorted 0 [] eq_refl) as [_ [L N]].
  set (w := assign sorted minDeg sorted 0 []) in Hi, Hj, L, N.
  assert (Hs : exists p, nth_error sorted i = Some p).
  { destruct (nth_error sorted i) as [p|] eqn:E; [exists p; reflexivity|].
    apply nth_error_None in E.
    assert (Hw : nth_error w i <> None) by congruence.
    apply nth_error_Some in Hw. lia. }
  destruct Hs as [p Hp]. specialize (N i p Hp). cbn [Nat.add] in N.
  rewrite Hi in N. injection N as ->. cbn [track entry] in *.
  destruct (first_free_spec (lookback (firstn i w) i (degree p) minDeg)) as [_ [NotIn _]].
  intros Eq. apply NotIn. rewrite Eq.
  apply (lookback_In (firstn i w) i (i - j) (degree p) minDeg ej); [lia | lia | | exact Hd].
  replace (i - (i - j))%nat with j by lia.
  rewrite nth_error_firstn, (proj2 (Nat.ltb_lt j i) H2). exact Hj.
Qed.

Lemma resolveCollisions_near_neighbours_witness :
  let w := resolveCollisions_default layout_example in
  exists ei ej,
    ((1 <= 1)%nat /\ (1 < 2)%nat /\ (2 <= 1 + 4)%nat /\
     nth_error w 2 = Some ei /\ nth_error w 1 = Some ej /\
     getDist (degree (entry ei)) (degree (entry ej)) < 6) /\
    track ei <> track ej.
Proof.
  cbv zeta.
  destruct (nth_error (resolveCollisions_default layout_example) 2) as [ei|] eqn:Ei;
    [| vm_compute in Ei; discriminate Ei].
  destruct (nth_error (resolveCollisions_default layout_example) 1) as [ej|] eqn:Ej;
    [| vm_compute in Ej; discriminate Ej].
  assert (Hd : getDist (degree (entry ei)) (degree (entry ej)) < 6).
  { vm_compute in Ei, Ej. injection Ei as <-. injection Ej as <-. reflexivity. }
  exists ei, ej. split; [repeat split; try lia; assumption|].
  exact (resolveCollisions_near_neighbours layout_example 6 2 1 ei ej
           ltac:(lia) ltac:(lia) ltac:(lia) Ei Ej Hd).
Defined.

Lemma nth_error_last_index {A} (l : list A) (d : A) :
  l <> [] -> nth_error l (List.length l - 1) = Some (List.last l d).
Proof.
  induction l as [|x xs IH]; intros H; [congruence|].
  destruct xs as [|y ys]; [reflexivity|].
  replace (List.length (x :: y :: ys) - 1)%nat with (S (List.length (y :: ys) - 1))
    by (cbn [List.length]; lia).
  cbn [nth_error]. rewrite IH by discriminate. reflexivity.
Qed.

(** Across the 360/0 seam: with at least two entities, the first and the
    last in longitude order that are closer than [minDeg] never share a
    track (the patch moves the first one up when they would). *)
Theorem resolveCollisions_seam_apart (planets : list PlanetPosition) (minDeg : Q)
    (first last : LayoutEntry) :
  (2 <= List.length planets)%nat ->
  nth_error (resolveCollisions planets minDeg) 0 = Some first ->
  nth_error (resolveCollisions planets minDeg) (List.length planets - 1) = Some last ->
  getDist (degree (entry first)) (degree (entry last)) < minDeg ->
  track first <> track last.
Proof.
  intros Hn H0 Hl Hd. unfold resolveCollisions in H0, Hl.
  set (sorted := js_sort (fun a b => degree a - degree b) planets) in H0, Hl.
  destruct (js_sort_props degree planets) as [_ [Hp _]].
  pose proof (Permutation_length Hp) as Ls. fold sorted in Ls.
  destruct (assign_nth sorted minDeg sorted 0 [] eq_refl) as [_ [L _]].
  remember (assign sorted minDeg sorted 0 []) as w eqn:W. clear W.
  cbn [Nat.add] in L.
  destruct w as [|e0 [|x xs]]; [cbn [List.length] in L; lia | cbn [List.length] in L; lia |].
  assert (Last : nth_error (e0 :: x :: xs) (List.length planets - 1) =
                 Some (List.last (e0 :: x :: xs) e0)).
  { rewrite <- Ls, <- L. apply nth_error_last_index. discriminate. }
  set (lst := List.last (e0 :: x :: xs) e0) in Last.
  destruct (List.length planets - 1)%nat as [|m] eqn:Em; [lia|].
  cbn [nth_error] in Last.
  revert H0 Hl. unfold wrap_patch. fold lst.
  destruct (Qltb (getDist (degree (entry e0)) (degree (entry lst))) minDeg
            && Z.eqb (track e0) (track lst)) eqn:C.
  - cbn [nth_error]. intros H0 Hl. injection H0 as <-. rewrite Last in Hl. injection Hl as <-.
    apply andb_true_iff in C as [_ C]. apply Z.eqb_eq in C. cbn [track]. lia.
  - cbn [nth_error]. intros H0 Hl. injection H0 as <-. rewrite Last in Hl. injection Hl as <-.
    apply (proj2 (Qltb_iff _ _)) in Hd. rewrite Hd in C. cbn [andb] in C.
    apply Z.eqb_neq in C. exact C.
Qed.

Lemma resolveCollisions_seam_apart_witness :
  let ps := [position "A" 0; position "B" 60; position "C" 120; position "D" 180;
             position "E" 240; position "F" 359]%string in
  let w := resolveCollisions ps 6 in
  exists first last,
    ((2 <= List.length ps)%nat /\ nth_error w 0 = Some first /\
     nth_error w (List.length ps - 1) = Some last /\
     getDist (degree (entry first)) (degree (entry last)) < 6) /\
    track first <> track last.
Proof.
  cbv zeta.
  set (ps := [position "A" 0; position "B" 60; position "C" 120; position "D" 180;
             position "E" 240; position "F" 359]%string).
  destruct (nth_error (resolveCollisions ps 6) 0) as [f|] eqn:Ef;
    [| vm_compute in Ef; discriminate Ef].
  destruct (nth_error (resolveCollisions ps 6) (List.length ps - 1)) as [l|] eqn:El;
    [| vm_compute in El; discriminate El].
  assert (Hd : getDist (degree (entry f)) (degree (entry l)) < 6).
  { vm_compute in Ef, El. injection Ef as <-. injection El as <-. reflexivity. }
  assert (Hn : (2 <= List.length ps)%nat) by (cbn; lia).
  exists f, l. split; [split; [exact Hn | split; [reflexivity | split; [reflexivity | exact Hd]]]|].
  exact (resolveCollisions_seam_apart ps 6 f l Hn Ef El Hd).
Defined.

(** ** Extra properties: the wheel's aspect lines *)

Lemma indexed_from {A} (l : list A) (s i : nat) (x : A) :
  In (i, x) (combine (seq s (List.length l)) l) -> (s <= i)%nat /\ nth_error l (i - s) = Some x.
Proof.
  revert s. induction l as [|y ys IH]; intros s H; [destruct H|].
  cbn [List.length seq combine] in H. destruct H as [E | H].
  - injection E as <- <-. rewrite Nat.sub_diag. split; [lia | reflexivity].
  - destruct (IH (S s) H) as [Hs Hn]. split; [lia|].
    replace (i - s)%nat with (S (i - S s)) by lia. exact Hn.
Qed.

Lemma indexed_In {A} (l : list A) (i : nat) (x : A) :
  In (i, x) (indexed l) -> nth_error l i = Some x.
Proof.
  intros H. destruct (indexed_from l 0 i x H) as [_ Hn]. rewrite Nat.sub_0_r in Hn. exact Hn.
Qed.

Lemma aspectLines_In (plA plB : list Plotted) (sec : bool) (active : option (string * string))
    (L : Plotted * Plotted * string) :
  In L (aspectLines plA plB sec active) ->
  exists i j q1 q2, nth_error plA i = Some q1 /\
    nth_error (if sec then plB else plA) j = Some q2 /\ In L (line_of sec active i j q1 q2).
Proof.
  unfold aspectLines. intros H.
  apply in_flat_map in H as ([i q1] & Hi & H). apply in_flat_map in H as ([j q2] & Hj & H).
  exists i, j, q1, q2. split; [exact (indexed_In _ _ _ Hi)|].
  split; [exact (indexed_In _ _ _ Hj) | exact H].
Qed.

Lemma line_of_In (sec : bool) (active : option (string * string)) (i j : nat) (q1 q2 : Plotted)
    (L : Plotted * Plotted * string) :
  In L (line_of sec active i j q1 q2) ->
  L = (q1, q2, line_type (shortest_angle (p_degree q1) (p_degree q2)) sec) /\
  line_type (shortest_angle (p_degree q1) (p_degree q2)) sec <> EmptyString /\
  (sec = false -> (i < j)%nat) /\
  (active <> None -> is_active active q1 = true \/ is_active active q2 = true).
Proof.
  unfold line_of. cbv zeta.
  change (if Qltb 180 (Qabs (p_degree q1 - p_degree q2))
          then 360 - Qabs (p_degree q1 - p_degree q2) else Qabs (p_degree q1 - p_degree q2))
    with (shortest_angle (p_degree q1) (p_degree q2)).
  set (t := line_type (shortest_angle (p_degree q1) (p_degree q2)) sec).
  destruct (negb sec && (j <=? i)%nat) eqn:C1; [intros []|].
  assert (Hij : sec = false -> (i < j)%nat).
  { intros ->. cbn [negb andb] in C1. apply Nat.leb_gt. exact C1. }
  assert (Ht : forall rest : list (Plotted * Plotted * string),
             In L (if String.eqb t EmptyString then [] else [(q1, q2, t)]) ->
             L = (q1, q2, t) /\ t <> EmptyString).
  { intros _. destruct (String.eqb t EmptyString) eqn:T; [intros []|].
    intros [<- | []]. split; [reflexivity|]. apply String.eqb_neq. exact T. }
  destruct (is_active active q1) eqn:A1, (is_active active q2) eqn:A2;
    destruct active as [na|]; cbn [andb negb];
    try (intros []);
    intros H; destruct (Ht [] H) as [E N];
    (split; [exact E | split; [exact N | split; [exact Hij|]]]);
    intros Hn; try (left; reflexivity); try (right; reflexivity); congruence.
Qed.

Lemma line_type_natal (a : Q) : line_type a false <> "conjunction"%string.
Proof.
  unfold line_type.
  destruct (Qltb (Qabs (a - 180)) 6); [discriminate|].
  destruct (Qltb (Qabs (a - 120)) 6); [discriminate|].
  destruct (Qltb (Qabs (a - 90)) 6); [discriminate|].
  destruct (Qltb (Qabs (a - 60)) 4); [discriminate|].
  rewrite andb_false_r. discriminate.
Qed.

Ltac band_false x r :=
  replace (Qle_bool (Qabs x) r) with false
    by (symmetry; apply not_true_iff_false; intros Hq;
        rewrite Qle_bool_iff, Qabs_Qle_condition in Hq; lra).
Ltac band_true x r :=
  replace (Qle_bool (Qabs x) r) with true
    by (symmetry; apply Qle_bool_iff, Qabs_Qle_condition; lra).

(** Each drawn line type is the lower-case name of what [aspect_type]
    gives for the same angle: the wheel's bands sit inside those of
    [calculateAspects]. *)
Lemma line_type_aspect (a : Q) (sec : bool) :
  line_type a sec <> EmptyString -> lower_aspect (aspect_type a) = line_type a sec.
Proof.
  unfold line_type, aspect_type, ORB.
  destruct (Qltb (Qabs (a - 180)) 6) eqn:L1.
  { rewrite Qltb_iff, Qabs_Qlt_condition in L1. intros _.
    band_false (a - 0) 6. band_false (a - 60) (6 * 0.7). band_false (a - 90) 6.
    band_false (a - 120) 6. band_true (a - 180) 6. reflexivity. }
  destruct (Qltb (Qabs (a - 120)) 6) eqn:L2.
  { rewrite Qltb_iff, Qabs_Qlt_condition in L2. intros _.
    band_false (a - 0) 6. band_false (a - 60) (6 * 0.7). band_false (a - 90) 6.
    band_true (a - 120) 6. reflexivity. }
  destruct (Qltb (Qabs (a - 90)) 6) eqn:L3.
  { rewrite Qltb_iff, Qabs_Qlt_condition in L3. intros _.
    band_false (a - 0) 6. band_false (a - 60) (6 * 0.7). band_true (a - 90) 6. reflexivity. }
  destruct (Qltb (Qabs (a - 60)) 4) eqn:L4.
  { rewrite Qltb_iff, Qabs_Qlt_condition in L4. intros _.
    band_false (a - 0) 6. band_true (a - 60) (6 * 0.7). reflexivity. }
  destruct (Qltb (Qabs (a - 0)) 6) eqn:L5; [| intros H; exfalso; apply H; reflexivity].
  destruct sec; [| intros H; exfalso; apply H; reflexivity].
  rewrite Qltb_iff, Qabs_Qlt_condition in L5. intros _.
  band_true (a - 0) 6. reflexivity.
Qed.

(** In the natal view (no second chart) the wheel draws each pair of
    bodies at most once, from an earlier to a later position of A's
    planets, and never draws a conjunction line. *)
Theorem aspectLines_natal (plA plB : list Plotted) (active : option (string * string))
    (p1 p2 : Plotted) (t : string) :
  In (p1, p2, t) (aspectLines plA plB false active) ->
  exists i j, (i < j)%nat /\ nth_error plA i = Some p1 /\ nth_error plA j = Some p2 /\
    t <> "conjunction"%string /\ t <> EmptyString.
Proof.
  intros H. destruct (aspectLines_In _ _ _ _ _ H) as (i & j & q1 & q2 & Hi & Hj & Hl).
  destruct (line_of_In _ _ _ _ _ _ _ Hl) as (E & N & Hij & _).
  injection E as <- <- ->. exists i, j.
  split; [exact (Hij eq_refl)|]. split; [exact Hi|]. split; [exact Hj|].
  split; [apply line_type_natal | exact N].
Qed.

Lemma aspectLines_natal_witness :
  let plA := plottedPlanetsA [position "Sun" 0; position "Moon" 90]%string in
  exists p1 p2 t,
    In (p1, p2, t) (aspectLines plA [] false None) /\
    (exists i j, (i < j)%nat /\ nth_error plA i = Some p1 /\ nth_error plA j = Some p2 /\
       t <> "conjunction"%string /\ t <> EmptyString).
Proof.
  cbv zeta.
  destruct (aspectLines (plottedPlanetsA [position "Sun" 0; position "Moon" 90]%string) [] false None)
    as [|[[q1 q2] t] rest] eqn:E; [vm_compute in E; discriminate E|].
  assert (H : In (q1, q2, t) (aspectLines (plottedPlanetsA [position "Sun" 0; position "Moon" 90]%string)
                                          [] false None)) by (rewrite E; left; reflexivity).
  exists q1, q2, t. split; [left; reflexivity | exact (aspectLines_natal _ _ _ _ _ _ H)].
Defined.

(** Every line the wheel draws, natal or synastry, joins two bodies for
    which the classifier of [calculateAspects] finds an aspect, and of the
    same kind: the wheel's bands are strictly inside its bands. *)
Theorem aspectLines_agree_with_aspects (plA plB : list Plotted) (sec : bool)
    (active : option (string * string)) (p1 p2 : Plotted) (t : string) :
  In (p1, p2, t) (aspectLines plA plB sec active) ->
  exists r, pair_aspect (entry (p_entry p1)) (entry (p_entry p2)) = [r] /\
    lower_aspect (aspectType r) = t /\ t <> EmptyString.
Proof.
  intros H. destruct (aspectLines_In _ _ _ _ _ H) as (i & j & q1 & q2 & _ & _ & Hl).
  destruct (line_of_In _ _ _ _ _ _ _ Hl) as (E & N & _ & _).
  injection E as <- <- ->.
  pose proof (line_type_aspect _ _ N) as Ag.
  unfold pair_aspect. cbv zeta. change (degree (entry (p_entry p1))) with (p_degree p1).
  change (degree (entry (p_entry p2))) with (p_degree p2).
  set (ang := shortest_angle (p_degree p1) (p_degree p2)) in *.
  destruct (String.eqb (aspect_type ang) EmptyString) eqn:T.
  - apply String.eqb_eq in T. rewrite T in Ag. exfalso. apply N. rewrite <- Ag. reflexivity.
  - eexists. split; [reflexivity|]. cbn [aspectType]. split; [exact Ag | exact N].
Qed.

Lemma aspectLines_agree_with_aspects_witness :
  let plA := plottedPlanetsA [position "Sun" 0]%string in
  let plB := plottedPlanetsB (Some [position "Moon" 3]%string) in
  exists p1 p2 t,
    In (p1, p2, t) (aspectLines plA plB true None) /\
    (exists r, pair_aspect (entry (p_entry p1)) (entry (p_entry p2)) = [r] /\
       lower_aspect (aspectType r) = t /\ t <> EmptyString).
Proof.
  cbv zeta.
  destruct (aspectLines (plottedPlanetsA [position "Sun" 0]%string)
                        (plottedPlanetsB (Some [position "Moon" 3]%string)) true None)
    as [|[[q1 q2] t] rest] eqn:E; [vm_compute in E; discriminate E|].
  assert (H : In (q1, q2, t) (aspectLines (plottedPlanetsA [position "Sun" 0]%string)
                       (plottedPlanetsB (Some [position "Moon" 3]%string)) true None))
    by (rewrite E; left; reflexivity).
  exists q1, q2, t. split; [left; reflexivity | exact (aspectLines_agree_with_aspects _ _ _ _ _ _ _ H)].
Defined.

(** While a planet is hovered or selected, every line drawn has that
    planet (same name and owner) at one of its ends. *)
Theorem aspectLines_active_filter (plA plB : list Plotted) (sec : bool) (n o : string)
    (p1 p2 : Plotted) (t : string) :
  In (p1, p2, t) (aspectLines plA plB sec (Some (n, o))) ->
  (p_name p1 = n /\ owner p1 = o) \/ (p_name p2 = n /\ owner p2 = o).
Proof.
  intros H. destruct (aspectLines_In _ _ _ _ _ H) as (i & j & q1 & q2 & _ & _ & Hl).
  destruct (line_of_In _ _ _ _ _ _ _ Hl) as (E & _ & _ & A).
  injection E as <- <- _.
  destruct (A ltac:(discriminate)) as [A1 | A2]; unfold is_active in A1 || unfold is_active in A2.
  - left. apply andb_true_iff in A1 as [N O]. apply String.eqb_eq in N, O. split; assumption.
  - right. apply andb_true_iff in A2 as [N O]. apply String.eqb_eq in N, O. split; assumption.
Qed.

Lemma aspectLines_active_filter_witness :
  let plA := plottedPlanetsA [position "Sun" 0; position "Moon" 90; position "Mars" 180]%string in
  exists p1 p2 t,
    In (p1, p2, t) (aspectLines plA [] false (Some ("Mars", "A")%string)) /\
    ((p_name p1 = "Mars"%string /\ owner p1 = "A"%string) \/
     (p_name p2 = "Mars"%string /\ owner p2 = "A"%string)).
Proof.
  cbv zeta.
  destruct (aspectLines (plottedPlanetsA [position "Sun" 0; position "Moon" 90; position "Mars" 180]%string)
                        [] false (Some ("Mars", "A")%string))
    as [|[[q1 q2] t] rest] eqn:E; [vm_compute in E; discriminate E|].
  assert (H : In (q1, q2, t) (aspectLines
                 (plottedPlanetsA [position "Sun" 0; position "Moon" 90; position "Mars" 180]%string)
                 [] false (Some ("Mars", "A")%string))) by (rewrite E; left; reflexivity).
  exists q1, q2, t. split; [left; reflexivity | exact (aspectLines_active_filter _ _ _ _ _ _ _ _ H)].
Defined.

(** ** Extra properties: plotted radii and track circles *)

Lemma resolveCollisions_tracks (planets : list PlanetPosition) (minDeg : Q) (e : LayoutEntry) :
  In e (resolveCollisions planets minDeg) -> (0 <= track e <= 4)%Z.
Proof.
  unfold resolveCollisions.
  set (sorted := js_sort (fun a b => degree a - degree b) planets).
  destruct (assign_shape sorted minDeg sorted) as [E | (e0 & tl & E & T0 & F)]; rewrite E.
  - intros [].
  - destruct (wrap_patch_shape minDeg e0 tl T0) as (e0' & W & T0'). rewrite W.
    rewrite Forall_forall in F. intros [<- | He]; [lia | exact (F e He)].
Qed.

Lemma max_track_acc (pl : list Plotted) (m : Z) :
  (m <= fold_left (fun m p => Z.max m (track (p_entry p))) pl m)%Z.
Proof.
  revert m. induction pl as [|q pl IH]; intros m; cbn [fold_left]; [lia|].
  specialize (IH (Z.max m (track (p_entry q)))). lia.
Qed.

Lemma max_track_ge (pl : list Plotted) (m : Z) (p : Plotted) :
  In p pl -> (track (p_entry p) <= fold_left (fun m p => Z.max m (track (p_entry p))) pl m)%Z.
Proof.
  revert m. induction pl as [|q pl IH]; intros m H; [destruct H|]. cbn [fold_left].
  destruct H as [-> | H]; [| exact (IH _ H)].
  pose proof (max_track_acc pl (Z.max m (track (p_entry p)))). lia.
Qed.

Lemma max_track_le (pl : list Plotted) (m b : Z) :
  (m <= b)%Z -> (forall p, In p pl -> (track (p_entry p) <= b)%Z) ->
  (fold_left (fun m p => Z.max m (track (p_entry p))) pl m <= b)%Z.
Proof.
  revert m. induction pl as [|q pl IH]; intros m Hm H; cbn [fold_left]; [exact Hm|].
  apply IH; [| intros p Hp; apply H; right; exact Hp].
  pose proof (H q (or_introl eq_refl)). lia.
Qed.

Lemma track_circles_cover (g : Z -> Q) (pl : list Plotted) (p : Plotted) :
  In p pl -> (0 <= track (p_entry p))%Z ->
  In (g (track (p_entry p))) (map (fun i => g (Z.of_nat i)) (seq 0 (S (Z.to_nat (max_track pl))))).
Proof.
  intros H T. apply in_map_iff. exists (Z.to_nat (track (p_entry p))).
  rewrite Z2Nat.id by exact T. split; [reflexivity|].
  apply in_seq. pose proof (max_track_ge pl 0 p H) as G. unfold max_track. lia.
Qed.

Lemma track_circles_count (pl : list Plotted) :
  (forall p, In p pl -> (track (p_entry p) <= 4)%Z) ->
  (List.length (seq 0 (S (Z.to_nat (max_track pl)))) <= 5)%nat.
Proof.
  intros H. rewrite length_seq. pose proof (max_track_le pl 0 4 ltac:(lia) H). unfold max_track. lia.
Qed.

Lemma inject_Z_0_4 (t : Z) : (0 <= t <= 4)%Z -> 0 <= inject_Z t /\ inject_Z t <= 4.
Proof.
  intros [H0 H4]. split.
  - change 0 with (inject_Z 0). rewrite <- Zle_Qle. exact H0.
  - change 4 with (inject_Z 4). rewrite <- Zle_Qle. exact H4.
Qed.

(** Both people's plotted planets are the layout entries of the resolver,
    in its order, tagged with their owner; every track is in [0, 4], so
    A's planets lie at radii in [174, 246] and B's in [135, 207]; each one
    lies on one of the track circles drawn for its person, and at most
    five circles are drawn per person. *)
Theorem plotted_radii (planets secondary : list PlanetPosition) :
  let plA := plottedPlanetsA planets in
  let plB := plottedPlanetsB (Some secondary) in
  map p_entry plA = resolveCollisions_default planets /\
  map p_entry plB = resolveCollisions_default secondary /\
  (forall p, In p plA -> owner p = "A"%string /\ 174 <= p_r p <= 246 /\
     In (p_r p) (track_circles_A plA)) /\
  (forall p, In p plB -> owner p = "B"%string /\ 135 <= p_r p <= 207 /\
     In (p_r p) (track_circles_B plB)) /\
  (List.length (track_circles_A plA) <= 5)%nat /\ (List.length (track_circles_B plB) <= 5)%nat.
Proof.
  cbv zeta.
  assert (TA : forall p, In p (plottedPlanetsA planets) -> (0 <= track (p_entry p) <= 4)%Z
             /\ p_r p = wheel_radius * 0.82 - inject_Z (track (p_entry p)) * trackSpacing
             /\ owner p = "A"%string).
  { intros p H. unfold plottedPlanetsA in H. apply in_map_iff in H as (e & <- & He).
    cbn [p_entry p_r owner]. split; [exact (resolveCollisions_tracks _ _ _ He) | auto]. }
  assert (TB : forall p, In p (plottedPlanetsB (Some secondary)) -> (0 <= track (p_entry p) <= 4)%Z
             /\ p_r p = wheel_radius * 0.45 + inject_Z (track (p_entry p)) * trackSpacing
             /\ owner p = "B"%string).
  { intros p H. unfold plottedPlanetsB in H. apply in_map_iff in H as (e & <- & He).
    cbn [p_entry p_r owner]. split; [exact (resolveCollisions_tracks _ _ _ He) | auto]. }
  split; [unfold plottedPlanetsA; rewrite map_map; apply map_id |].
  split; [unfold plottedPlanetsB; rewrite map_map; apply map_id |].
  split; [| split; [| split]].
  - intros p H. destruct (TA p H) as (T & R & O). split; [exact O|].
    destruct (inject_Z_0_4 _ T) as [I0 I4]. split.
    + rewrite R. unfold wheel_radius, trackSpacing. split; lra.
    + rewrite R. unfold track_circles_A.
      apply (track_circles_cover (fun t => wheel_radius * 0.82 - inject_Z t * trackSpacing) _ p H).
      lia.
  - intros p H. destruct (TB p H) as (T & R & O). split; [exact O|].
    destruct (inject_Z_0_4 _ T) as [I0 I4]. split.
    + rewrite R. unfold wheel_radius, trackSpacing. split; lra.
    + rewrite R. unfold track_circles_B.
      apply (track_circles_cover (fun t => wheel_radius * 0.45 + inject_Z t * trackSpacing) _ p H).
      lia.
  - unfold track_circles_A. rewrite length_map. apply track_circles_count.
    intros p H. destruct (TA p H) as (T & _). lia.
  - unfold track_circles_B. rewrite length_map. apply track_circles_count.
    intros p H. destruct (TB p H) as (T & _). lia.
Qed.

(** ** Extra properties: the merge steps of the services *)

(** The [keyAspects] of [analyzeSynastry] are the model's key aspects, one
    for one and in order, with bodies, type and description copied; the
    orb is that of a calculated aspect with the same bodies and type, or
    0 when no calculated aspect matches, so it is always in [0, 6]. *)
Theorem analyzeSynastry_keyAspects_orbs (c1 c2 : CalculatedChart) (kas : list KeyAspect) :
  let aspects := calculateAspects c1 c2 in
  map (fun k => (planetA k, planetB k, aspectType k, description k)) (keyAspects aspects kas) =
  map (fun ka => (ka_planetA ka, ka_planetB ka, ka_aspectType ka, ka_description ka)) kas /\
  forall k, In k (keyAspects aspects kas) ->
    0 <= orb k <= 6 /\
    ((exists a, In a aspects /\ planetA a = planetA k /\ planetB a = planetB k /\
                aspectType a = aspectType k /\ orb k = orb a) \/
     (orb k = 0 /\ forall a, In a aspects ->
        ~ (planetA a = planetA k /\ planetB a = planetB k /\ aspectType a = aspectType k))).
Proof.
  cbv zeta. unfold keyAspects. split; [rewrite map_map; reflexivity|].
  intros k Hk. apply in_map_iff in Hk as (ka & <- & _). cbn [planetA planetB aspectType orb].
  set (f := fun a => String.eqb (planetA a) (ka_planetA ka) && String.eqb (planetB a) (ka_planetB ka)
                     && String.eqb (aspectType a) (ka_aspectType ka)).
  destruct (find f (calculateAspects c1 c2)) as [a|] eqn:F.
  - destruct (find_some _ _ F) as [Hin Hf]. unfold f in Hf.
    apply andb_true_iff in Hf as [Hf H3]. apply andb_true_iff in Hf as [H1 H2].
    apply String.eqb_eq in H1, H2, H3.
    destruct (calculateAspects_from_pairs c1 c2 a Hin) as (x & y & _ & _ & Hr).
    destruct (pair_aspect_record x y a Hr) as (_ & _ & O & T). split.
    + split; [exact O|].
      destruct T as [[_ T] | [[_ T] | [[_ T] | [[_ T] | [_ T]]]]]; lra.
    + left. exists a. auto.
  - split; [split; lra|]. right. split; [reflexivity|].
    intros a Ha (H1 & H2 & H3). pose proof (find_none _ _ F a Ha) as Hf. unfold f in Hf.
    rewrite H1, H2, H3, !String.eqb_refl in Hf. discriminate Hf.
Qed.
